(** * SkyGen Weather: request orchestration and error taxonomy

    A shallow embedding of the weather dashboard's logic:
    - [src/services/weatherService.ts]: [getWeatherByCity], [getWeatherByCoords];
    - the Gemini service ([generateWeatherInsight]);
    - [src/App.tsx]: the UI state and its handlers [fetchWeather],
      [fetchWeatherByLocation], [handleSearch], [handleGetInsight].

    JavaScript strings are sequences of UTF-16 code units.  Asynchronous
    functions are programs of a small free monad whose nodes are the state
    setters of the component and the calls to the outside world (HTTP fetch,
    the Gemini completion call, the geolocation query).  Two semantics are
    given: [exec] runs one handler to completion against a fixed world, and
    [step] interleaves user events with the resolution of requests that are
    still in flight. *)

From Stdlib Require Import List NArith ZArith Bool String Ascii Lia.
From Stdlib Require Import PrimFloat FloatOps SpecFloat DecimalString.
Import ListNotations.

Local Open Scope N_scope.

(** ** JavaScript strings *)

Module JS.

(** A UTF-16 code unit. *)
Definition code_unit := N.

Definition jsstring := list code_unit.

(** A string literal of the source, all of whose characters are ASCII. *)
Definition lit (s : string) : jsstring :=
  map N_of_ascii (list_ascii_of_string s).

(** Truthiness of a string: only the empty string is falsy. *)
Definition truthy (s : jsstring) : bool :=
  match s with
  | [] => false
  | _ :: _ => true
  end.

(** [a || b] on an operand that may be [undefined]. *)
Definition or_default (a : option jsstring) (b : jsstring) : jsstring :=
  match a with
  | Some s => if truthy s then s else b
  | None => b
  end.

(** ECMAScript WhiteSpace and LineTerminator code points, the characters
    that [String.prototype.trim] strips. *)
Definition isWhiteSpace (c : code_unit) : bool :=
  (c =? 9) || (c =? 10) || (c =? 11) || (c =? 12) || (c =? 13) || (c =? 32)
  || (c =? 160) || (c =? 5760)
  || ((8192 <=? c) && (c <=? 8202))
  || (c =? 8232) || (c =? 8233) || (c =? 8239) || (c =? 8287)
  || (c =? 12288) || (c =? 65279).

Fixpoint trimStart (s : jsstring) : jsstring :=
  match s with
  | [] => []
  | c :: rest => if isWhiteSpace c then trimStart rest else s
  end.

Definition trimEnd (s : jsstring) : jsstring :=
  rev (trimStart (rev s)).

(** [s.trim()] *)
Definition trim (s : jsstring) : jsstring :=
  trimEnd (trimStart s).

(** A JavaScript Number is an IEEE 754 binary64 value. *)
Definition number : Set := float.

(** *** encodeURIComponent *)

(** An [Error] object; only its [message] is ever read by the program. *)
Record Error : Type := mkError { message : jsstring }.

Definition isAlnum (c : code_unit) : bool :=
  ((48 <=? c) && (c <=? 57)) || ((65 <=? c) && (c <=? 90))
  || ((97 <=? c) && (c <=? 122)).

(** The characters [encodeURIComponent] leaves alone: alphanumerics and
    [- _ . ! ~ * ' ( )]. *)
Definition unreserved (c : code_unit) : bool :=
  isAlnum c
  || (c =? 45) || (c =? 95) || (c =? 46) || (c =? 33) || (c =? 126)
  || (c =? 42) || (c =? 39) || (c =? 40) || (c =? 41).

Definition isLeadSurrogate (c : code_unit) : bool :=
  (55296 <=? c) && (c <=? 56319).

Definition isTrailSurrogate (c : code_unit) : bool :=
  (56320 <=? c) && (c <=? 57343).

Definition utf8 (cp : N) : list N :=
  if cp <? 128 then [cp]
  else if cp <? 2048 then [192 + cp / 64; 128 + cp mod 64]
  else if cp <? 65536 then
    [224 + cp / 4096; 128 + (cp / 64) mod 64; 128 + cp mod 64]
  else
    [240 + cp / 262144; 128 + (cp / 4096) mod 64;
     128 + (cp / 64) mod 64; 128 + cp mod 64].

Definition hexDigit (d : N) : code_unit :=
  if d <? 10 then 48 + d else 55 + d.

Definition percent (octet : N) : jsstring :=
  [37; hexDigit (octet / 16); hexDigit (octet mod 16)].

Definition percentAll (octets : list N) : jsstring :=
  flat_map percent octets.

Definition URIError : Error := mkError (lit "URI malformed").

Definition prepend (pre : jsstring) (r : Error + jsstring) : Error + jsstring :=
  match r with
  | inl e => inl e
  | inr s => inr (pre ++ s)
  end.

(** [encodeURIComponent(s)]; it throws a URIError on a lone surrogate. *)
Fixpoint encodeURIComponent (s : jsstring) : Error + jsstring :=
  match s with
  | [] => inr []
  | c :: rest =>
      if unreserved c then prepend [c] (encodeURIComponent rest)
      else if isLeadSurrogate c then
        match rest with
        | d :: rest' =>
            if isTrailSurrogate d then
              prepend
                (percentAll (utf8 ((c - 55296) * 1024 + (d - 56320) + 65536)))
                (encodeURIComponent rest')
            else inl URIError
        | [] => inl URIError
        end
      else if isTrailSurrogate c then inl URIError
      else prepend (percentAll (utf8 c)) (encodeURIComponent rest)
  end.

End JS.
Import JS.

(** ** The error taxonomy

    The program has no error classes: every failure is an [Error] whose
    message tells the kinds apart.  These are the names the design gives
    them. *)

Definition NotFound : Error :=
  mkError (lit "City not found. Please try again.").

Definition InvalidCredentials : Error :=
  mkError (lit "Invalid OpenWeather API Key.").

Definition ProviderError (statusText : jsstring) : Error :=
  mkError (lit "Weather API Error: " ++ statusText).

Definition MissingAiCredentials : Error :=
  mkError (lit "Gemini API Key is missing. Insight features are disabled.").

Definition EmptyResponse : Error :=
  mkError (lit "No response from Gemini").

Definition GenerationFailed : Error :=
  mkError (lit "Failed to generate AI insight.").

(** ** Data *)

(** *** The payloads ([types.ts]) *)

(** Modelled from the spec: the nested objects of [WeatherData], whose
    declaration in [types.ts] is not among the sources; the fields are
    those of the provider's response (sys.country, main.temp,
    main.feels_like, main.humidity, wind.speed, weather[0].description,
    weather[0].icon), as the program reads them. *)
Record WeatherSys : Type := { country : jsstring }.

Record WeatherMain : Type :=
  { temp : number; feels_like : number; humidity : number }.

Record WeatherWind : Type := { speed : number }.

Record WeatherCondition : Type :=
  { description : jsstring; icon : jsstring }.

(** Modelled from the spec: the declaration of [WeatherData] in [types.ts];
    [wd_weather] is its array field [weather]. *)
Record WeatherData : Type :=
  { name : jsstring;
    sys : WeatherSys;
    main : WeatherMain;
    wind : WeatherWind;
    wd_weather : list WeatherCondition }.

(** Modelled from the spec: the declaration of [GeminiInsight] in
    [types.ts]: the three required strings of the completion. *)
Record GeminiInsight : Type :=
  { summary : jsstring; outfitAdvice : jsstring; funFact : jsstring }.

(** *** The language runtime *)

(** How a Number is printed inside a template literal, and what
    [JSON.parse(text) as GeminiInsight] makes of a text (a SyntaxError or
    the parsed value), belong to the language runtime and are kept
    abstract. *)
Class Runtime : Type :=
  { numberToString : number -> jsstring;
    JSON_parse : jsstring -> Error + GeminiInsight }.

(** *** The outside world *)

(** A [Response] of the Fetch API; [json] is what [response.json()] settles
    to (a rejection when the body is not JSON).  The body is taken to be
    read in the step in which the response arrives. *)
Record Response : Type :=
  { status : N;
    statusText : jsstring;
    json : Error + WeatherData }.

(** [response.ok]: the status is in the range 200-299. *)
Definition ok (r : Response) : bool :=
  (200 <=? status r) && (status r <=? 299).

Record Schema : Type :=
  { properties : list jsstring; required : list jsstring }.

Record GenerateContentParameters : Type :=
  { model : jsstring;
    contents : jsstring;
    responseMimeType : jsstring;
    responseSchema : Schema }.

(** The Gemini client, [new GoogleGenAI({ apiKey })]. *)
Record GoogleGenAI : Type := { clientKey : jsstring }.

(** The completion's [response.text], possibly [undefined]. *)
Record GenerateContentResponse : Type := { text : option jsstring }.

Record Coords : Type := { latitude : number; longitude : number }.

Record GeolocationPosition : Type := { coords : Coords }.

(** *** The component state of [App] *)

Record UIState : Type :=
  { city : jsstring;
    weather : option WeatherData;
    insight : option GeminiInsight;
    loading : bool;
    aiLoading : bool;
    error : option jsstring }.

(** [useState] initial values. *)
Definition initialState : UIState :=
  {| city := [];
     weather := None;
     insight := None;
     loading := false;
     aiLoading := false;
     error := None |}.

(** ** The free monad of asynchronous programs *)

Inductive LogArg : Type :=
| LogString (s : jsstring)
| LogError (e : Error).

(** Synchronous effects: the state setters, [e.preventDefault()] and
    [console.error]. *)
Inductive Action : Type :=
| SetCity (v : jsstring)
| SetWeather (v : option WeatherData)
| SetInsight (v : option GeminiInsight)
| SetLoading (v : bool)
| SetAiLoading (v : bool)
| SetError (v : option jsstring)
| PreventDefault
| ConsoleError (args : list LogArg).

(** Calls that leave the program and are answered later.  A promise either
    rejects with an [Error] or resolves; the geolocation query calls its
    success callback with a position or its error callback. *)
Inductive Call : Type -> Type :=
| Fetch (url : jsstring) : Call (Error + Response)
| GenerateContent (ai : GoogleGenAI) (req : GenerateContentParameters) :
    Call (Error + GenerateContentResponse)
| GetCurrentPosition : Call (option GeolocationPosition).

Inductive Prog (A : Type) : Type :=
| Ret (a : A)
| Throw (e : Error)
| Do (a : Action) (k : Prog A)
| Await (X : Type) (c : Call X) (k : X -> Prog A).

Arguments Ret {A} a.
Arguments Throw {A} e.
Arguments Do {A} a k.
Arguments Await {A X} c k.

Fixpoint bind {A B : Type} (p : Prog A) (f : A -> Prog B) : Prog B :=
  match p with
  | Ret a => f a
  | Throw e => Throw e
  | Do a k => Do a (bind k f)
  | Await c k => Await c (fun x => bind (k x) f)
  end.

(** [try { p } catch (err) { h err }] *)
Fixpoint try_catch {A : Type} (p : Prog A) (h : Error -> Prog A) : Prog A :=
  match p with
  | Ret a => Ret a
  | Throw e => h e
  | Do a k => Do a (try_catch k h)
  | Await c k => Await c (fun x => try_catch (k x) h)
  end.

(** [try { p } finally { fin }]: the finaliser runs on both exits and, when
    it completes normally, the completion of [p] stands. *)
Fixpoint try_finally {A : Type} (p : Prog A) (fin : Prog unit) : Prog A :=
  match p with
  | Ret a => bind fin (fun _ => Ret a)
  | Throw e => bind fin (fun _ => Throw e)
  | Do a k => Do a (try_finally k fin)
  | Await c k => Await c (fun x => try_finally (k x) fin)
  end.

Definition act (a : Action) : Prog unit := Do a (Ret tt).

(** [await] of a promise: a rejection is thrown at the point of the await. *)
Definition await {X : Type} (c : Call (Error + X)) : Prog X :=
  Await c (fun r =>
    match r with
    | inl e => Throw e
    | inr x => Ret x
    end).

Definition of_result {A : Type} (r : Error + A) : Prog A :=
  match r with
  | inl e => Throw e
  | inr a => Ret a
  end.

Notation "x <- c1 ;; c2" := (bind c1 (fun x => c2))
  (at level 61, c1 at next level, right associativity).
Notation "a ;; p" := (Do a p) (at level 61, right associativity).

(** ** Semantics *)

(** A call that was issued, with its arguments. *)
Inductive Request : Type :=
| Requested (X : Type) (c : Call X).

Arguments Requested {X} c.

(** The component state together with what the program did to the outside:
    the lines written with [console.error] and the calls issued. *)
Record Machine : Type :=
  { ui : UIState;
    console : list (list LogArg);
    requests : list Request }.

Definition initialMachine : Machine :=
  {| ui := initialState; console := []; requests := [] |}.

Definition setUi (f : UIState -> UIState) (m : Machine) : Machine :=
  {| ui := f (ui m); console := console m; requests := requests m |}.

Definition apply_action (a : Action) (m : Machine) : Machine :=
  match a with
  | SetCity v =>
      setUi (fun s => {| city := v; weather := weather s; insight := insight s;
                         loading := loading s; aiLoading := aiLoading s;
                         error := error s |}) m
  | SetWeather v =>
      setUi (fun s => {| city := city s; weather := v; insight := insight s;
                         loading := loading s; aiLoading := aiLoading s;
                         error := error s |}) m
  | SetInsight v =>
      setUi (fun s => {| city := city s; weather := weather s; insight := v;
                         loading := loading s; aiLoading := aiLoading s;
                         error := error s |}) m
  | SetLoading v =>
      setUi (fun s => {| city := city s; weather := weather s;
                         insight := insight s; loading := v;
                         aiLoading := aiLoading s; error := error s |}) m
  | SetAiLoading v =>
      setUi (fun s => {| city := city s; weather := weather s;
                         insight := insight s; loading := loading s;
                         aiLoading := v; error := error s |}) m
  | SetError v =>
      setUi (fun s => {| city := city s; weather := weather s;
                         insight := insight s; loading := loading s;
                         aiLoading := aiLoading s; error := v |}) m
  | PreventDefault => m
  | ConsoleError args =>
      {| ui := ui m; console := console m ++ [args]; requests := requests m |}
  end.

Definition issue {X : Type} (c : Call X) (m : Machine) : Machine :=
  {| ui := ui m; console := console m; requests := requests m ++ [Requested c] |}.

(** *** Running one program to completion *)

(** A world answers every call. *)
Record World : Type :=
  { net : jsstring -> Error + Response;
    gemini : GoogleGenAI -> GenerateContentParameters ->
             Error + GenerateContentResponse;
    geolocation : option GeolocationPosition }.

Definition answer (w : World) {X : Type} (c : Call X) : X :=
  match c in Call T return T with
  | Fetch url => net w url
  | GenerateContent client req => gemini w client req
  | GetCurrentPosition => geolocation w
  end.

Fixpoint exec {A : Type} (w : World) (p : Prog A) (m : Machine)
  : Machine * (Error + A) :=
  match p with
  | Ret a => (m, inr a)
  | Throw e => (m, inl e)
  | Do a k => exec w k (apply_action a m)
  | Await c k => exec w (k (answer w c)) (issue c m)
  end.

(** *** Interleaving *)

(** Where a program stands after its synchronous prefix. *)
Inductive Stage (A : Type) : Type :=
| Finished (r : Error + A)
| Blocked (X : Type) (c : Call X) (k : X -> Prog A).

Arguments Finished {A} r.
Arguments Blocked {A X} c k.

(** Runs a program up to its first call to the outside. *)
Fixpoint run_sync {A : Type} (p : Prog A) (m : Machine) : Machine * Stage A :=
  match p with
  | Ret a => (m, Finished (inr a))
  | Throw e => (m, Finished (inl e))
  | Do a k => run_sync k (apply_action a m)
  | Await c k => (issue c m, Blocked c k)
  end.

(** A request in flight and what resumes when it is answered. *)
Inductive Task : Type :=
| Waiting (X : Type) (c : Call X) (k : X -> Prog unit).

Arguments Waiting {X} c k.

Inductive Answer : Type :=
| FetchAnswer (r : Error + Response)
| GenerateAnswer (r : Error + GenerateContentResponse)
| PositionAnswer (r : option GeolocationPosition).

Definition resume (t : Task) (a : Answer) : option (Prog unit) :=
  match t with
  | Waiting c k =>
      match c in Call T return (T -> Prog unit) -> option (Prog unit) with
      | Fetch _ => fun k =>
          match a with FetchAnswer r => Some (k r) | _ => None end
      | GenerateContent _ _ => fun k =>
          match a with GenerateAnswer r => Some (k r) | _ => None end
      | GetCurrentPosition => fun k =>
          match a with PositionAnswer r => Some (k r) | _ => None end
      end k
  end.

Record System : Type :=
  { machine : Machine;
    pending : list Task }.

Definition initialSystem : System :=
  {| machine := initialMachine; pending := [] |}.

(** Starts a program: its synchronous prefix runs at once and, if it stops
    at a call, the rest waits for the answer. *)
Definition launch (p : Prog unit) (m : Machine) (waiting : list Task) : System :=
  match run_sync p m with
  | (m', Finished _) => {| machine := m'; pending := waiting |}
  | (m', Blocked c k) => {| machine := m'; pending := waiting ++ [Waiting c k] |}
  end.

Fixpoint remove_nth {A : Type} (i : nat) (l : list A) : list A :=
  match i, l with
  | _, [] => []
  | O, _ :: l' => l'
  | S i', x :: l' => x :: remove_nth i' l'
  end.

(** ** The program *)

Section Program.

Context {runtime : Runtime}.

(** ** [services/weatherService.ts] *)

Definition BASE_URL : jsstring :=
  lit "https://api.openweathermap.org/data/2.5/weather".

Definition cityUrl (encoded apiKey : jsstring) : jsstring :=
  BASE_URL ++ lit "?q=" ++ encoded ++ lit "&units=metric&appid=" ++ apiKey.

Definition coordsUrl (lat lon : number) (apiKey : jsstring) : jsstring :=
  BASE_URL ++ lit "?lat=" ++ numberToString lat ++ lit "&lon="
  ++ numberToString lon ++ lit "&units=metric&appid=" ++ apiKey.

Definition getWeatherByCity (city apiKey : jsstring) : Prog WeatherData :=
  if negb (truthy apiKey) then
    Throw (mkError (lit "OpenWeather API Key is missing."))
  else
    encoded <- of_result (encodeURIComponent city) ;;
    response <- await (Fetch (cityUrl encoded apiKey)) ;;
    if negb (ok response) then
      if status response =? 404 then
        Throw (mkError (lit "City not found. Please try again."))
      else if status response =? 401 then
        Throw (mkError (lit "Invalid OpenWeather API Key."))
      else
        Throw (mkError (lit "Weather API Error: " ++ statusText response))
    else of_result (json response).

Definition getWeatherByCoords (lat lon : number) (apiKey : jsstring)
  : Prog WeatherData :=
  if negb (truthy apiKey) then
    Throw (mkError (lit "OpenWeather API Key is missing."))
  else
    response <- await (Fetch (coordsUrl lat lon apiKey)) ;;
    if negb (ok response) then
      if status response =? 401 then
        Throw (mkError (lit "Invalid OpenWeather API Key."))
      else
        Throw (mkError (lit "Weather API Error: " ++ statusText response))
    else of_result (json response).

(** ** The Gemini service *)

(** The module-level client: constructed only when [API_KEY] is truthy. *)
Definition ai (API_KEY : option jsstring) : option GoogleGenAI :=
  match API_KEY with
  | Some k => if truthy k then Some {| clientKey := k |} else None
  | None => None
  end.

(** [weather.weather[0].description]: reading a property of [undefined]
    throws a TypeError when the array is empty. *)
Definition firstDescription (w : WeatherData) : Error + jsstring :=
  match wd_weather w with
  | c :: _ => inr (description c)
  | [] =>
      inl (mkError
             (lit "Cannot read properties of undefined (reading 'description')"))
  end.

Definition nl : jsstring := [10].

(** The degree sign of the template, U+00B0. *)
Definition degree : jsstring := [176].

Definition promptFor (w : WeatherData) (desc : jsstring) : jsstring :=
  nl ++ lit "    Current weather data for " ++ name w ++ lit ", "
  ++ country (sys w) ++ lit ":" ++ nl
  ++ lit "    - Temperature: " ++ numberToString (temp (main w)) ++ degree
  ++ lit "C (Feels like " ++ numberToString (feels_like (main w)) ++ degree
  ++ lit "C)" ++ nl
  ++ lit "    - Condition: " ++ desc ++ nl
  ++ lit "    - Humidity: " ++ numberToString (humidity (main w)) ++ lit "%"
  ++ nl
  ++ lit "    - Wind: " ++ numberToString (speed (wind w)) ++ lit " m/s" ++ nl
  ++ nl
  ++ lit "    Provide a response in JSON format with the following fields:"
  ++ nl
  ++ lit "    - summary: A witty, short summary of the weather (max 1 sentence)."
  ++ nl
  ++ lit "    - outfitAdvice: Practical clothing advice based on the data."
  ++ nl
  ++ lit "    - funFact: A very short fun fact related to this kind of weather."
  ++ nl ++ lit "  ".

Definition insightSchema : Schema :=
  {| properties := [lit "summary"; lit "outfitAdvice"; lit "funFact"];
     required := [lit "summary"; lit "outfitAdvice"; lit "funFact"] |}.

Definition insightRequest (prompt : jsstring) : GenerateContentParameters :=
  {| model := lit "gemini-2.5-flash";
     contents := prompt;
     responseMimeType := lit "application/json";
     responseSchema := insightSchema |}.

(** [!text]: [undefined] and the empty string are both falsy. *)
Definition textOf (r : GenerateContentResponse) : option jsstring :=
  match text r with
  | Some t => if truthy t then Some t else None
  | None => None
  end.

Definition generateWeatherInsight (ai : option GoogleGenAI) (w : WeatherData)
  : Prog GeminiInsight :=
  match ai with
  | None =>
      Throw (mkError
               (lit "Gemini API Key is missing. Insight features are disabled."))
  | Some client =>
      desc <- of_result (firstDescription w) ;;
      try_catch
        (response <- await (GenerateContent client
                              (insightRequest (promptFor w desc))) ;;
         match textOf response with
         | None => Throw (mkError (lit "No response from Gemini"))
         | Some t => of_result (JSON_parse t)
         end)
        (fun error =>
           ConsoleError [LogString (lit "Gemini Insight Error:"); LogError error] ;;
           Throw (mkError (lit "Failed to generate AI insight.")))
  end.

(** ** [App.tsx] *)

(** What the component reads from its surroundings. *)
Record Env : Type :=
  { OPENWEATHER_API_KEY : option jsstring;
    API_KEY : option jsstring;
    navigator_geolocation : bool }.

Definition apiKey (env : Env) : jsstring :=
  or_default (OPENWEATHER_API_KEY env) (lit "072b5fb1fa34faa84a90bd9c35785838").

Definition missingKeyMessage : jsstring :=
  lit "Configuration Error: OPENWEATHER_API_KEY is missing.".

Definition fetchWeather (env : Env) (searchCity : jsstring) : Prog unit :=
  if negb (truthy (apiKey env)) then
    act (SetError (Some missingKeyMessage))
  else
    SetLoading true ;;
    SetError None ;;
    SetInsight None ;;
    try_finally
      (try_catch
         (data <- getWeatherByCity searchCity (apiKey env) ;;
          act (SetWeather (Some data)))
         (fun err =>
            SetError (Some (or_default (Some (message err))
                                       (lit "Failed to fetch weather"))) ;;
            act (SetWeather None)))
      (act (SetLoading false)).

(** The success callback passed to [getCurrentPosition]. *)
Definition onPosition (env : Env) (position : GeolocationPosition) : Prog unit :=
  try_finally
    (try_catch
       (data <- getWeatherByCoords (latitude (coords position))
                                   (longitude (coords position)) (apiKey env) ;;
        SetWeather (Some data) ;;
        if truthy (name data) then act (SetCity (name data)) else Ret tt)
       (fun err =>
          act (SetError (Some (or_default (Some (message err))
                          (lit "Failed to fetch weather from location"))))))
    (act (SetLoading false)).

(** The error callback passed to [getCurrentPosition]. *)
Definition onPositionError : Prog unit :=
  SetError (Some (lit "Unable to retrieve your location")) ;;
  act (SetLoading false).

Definition fetchWeatherByLocation (env : Env) : Prog unit :=
  if negb (truthy (apiKey env)) then
    act (SetError (Some missingKeyMessage))
  else if negb (navigator_geolocation env) then
    act (SetError (Some (lit "Geolocation is not supported by your browser")))
  else
    SetLoading true ;;
    SetError None ;;
    SetInsight None ;;
    Await GetCurrentPosition (fun r =>
      match r with
      | Some position => onPosition env position
      | None => onPositionError
      end).

(** Handlers close over the state of the render they were created in. *)
Definition handleSearch (env : Env) (st : UIState) : Prog unit :=
  PreventDefault ;;
  if truthy (trim (city st)) then fetchWeather env (city st) else Ret tt.

Definition handleGetInsight (env : Env) (st : UIState) : Prog unit :=
  match weather st with
  | None => Ret tt
  | Some w =>
      SetAiLoading true ;;
      try_finally
        (try_catch
           (data <- generateWeatherInsight (ai (API_KEY env)) w ;;
            act (SetInsight (Some data)))
           (fun err => act (ConsoleError [LogError err])))
        (act (SetAiLoading false))
  end.

(** [onChange] of the city input. *)
Definition handleChange (value : jsstring) : Prog unit :=
  act (SetCity value).

(** ** The event loop *)

(** What the render offers: the submit button is disabled while loading or
    when the trimmed city is empty, the location button while loading; the
    insight button exists only under a weather panel without an insight and
    is disabled while the AI call runs. *)
Definition searchEnabled (st : UIState) : bool :=
  negb (loading st || negb (truthy (trim (city st)))).

Definition locationEnabled (st : UIState) : bool :=
  negb (loading st).

Definition isSome {A : Type} (o : option A) : bool :=
  match o with
  | Some _ => true
  | None => false
  end.

Definition insightEnabled (st : UIState) : bool :=
  isSome (weather st) && negb (isSome (insight st)) && negb (aiLoading st).

Inductive Event : Type :=
| TypeCity (value : jsstring)
| SubmitSearch
| ClickLocation
| ClickInsight
| Resolve (i : nat) (a : Answer).

Definition step (env : Env) (ev : Event) (s : System) : option System :=
  let st := ui (machine s) in
  match ev with
  | TypeCity value =>
      Some (launch (handleChange value) (machine s) (pending s))
  | SubmitSearch =>
      if searchEnabled st
      then Some (launch (handleSearch env st) (machine s) (pending s))
      else None
  | ClickLocation =>
      if locationEnabled st
      then Some (launch (fetchWeatherByLocation env) (machine s) (pending s))
      else None
  | ClickInsight =>
      if insightEnabled st
      then Some (launch (handleGetInsight env st) (machine s) (pending s))
      else None
  | Resolve i a =>
      match nth_error (pending s) i with
      | Some t =>
          match resume t a with
          | Some p => Some (launch p (machine s) (remove_nth i (pending s)))
          | None => None
          end
      | None => None
      end
  end.

Fixpoint run (env : Env) (evs : list Event) (s : System) : option System :=
  match evs with
  | [] => Some s
  | ev :: rest =>
      match step env ev s with
      | Some s' => run env rest s'
      | None => None
      end
  end.

Definition reachable (env : Env) (s : System) : Prop :=
  exists evs, run env evs initialSystem = Some s.

(** ** Vocabulary of the properties *)

(** The line the catch block of [generateWeatherInsight] writes. *)
Definition insightLog (cause : Error) : list LogArg :=
  [LogString (lit "Gemini Insight Error:"); LogError cause].

Definition logged (cause : Error) (m : Machine) : Machine :=
  apply_action (ConsoleError (insightLog cause)) m.

(** The completion request of a snapshot whose first condition reads
    [desc]. *)
Definition insightCall (client : GoogleGenAI) (wd : WeatherData)
    (desc : jsstring) : Call (Error + GenerateContentResponse) :=
  GenerateContent client (insightRequest (promptFor wd desc)).

(** A call-level failure of the completion: the call is rejected (network or
    provider error) or its text does not parse. *)
Definition callFails (w : World) (client : GoogleGenAI) (wd : WeatherData)
    (desc : jsstring) (cause : Error) : Prop :=
  gemini w client (insightRequest (promptFor wd desc)) = inl cause
  \/ exists response t,
       gemini w client (insightRequest (promptFor wd desc)) = inr response
       /\ textOf response = Some t
       /\ JSON_parse t = inl cause.

(** The completion call succeeds with an empty or absent body. *)
Definition emptyBody (w : World) (client : GoogleGenAI) (wd : WeatherData)
    (desc : jsstring) : Prop :=
  exists response,
    gemini w client (insightRequest (promptFor wd desc)) = inr response
    /\ textOf response = None.

(** [Confined P Q p]: the program [p] performs only actions in [P] and
    issues only calls in [Q]. *)
Inductive Confined (P : Action -> Prop) (Q : forall X : Type, Call X -> Prop)
    {A : Type} : Prog A -> Prop :=
| Confined_Ret (a : A) : Confined P Q (Ret a)
| Confined_Throw (e : Error) : Confined P Q (Throw e)
| Confined_Do (a : Action) (k : Prog A) :
    P a -> Confined P Q k -> Confined P Q (Do a k)
| Confined_Await (X : Type) (c : Call X) (k : X -> Prog A) :
    Q X c -> (forall x, Confined P Q (k x)) -> Confined P Q (Await c k).

(** Every action but [setCity]. *)
Definition keepsCity (a : Action) : Prop :=
  match a with
  | SetCity _ => False
  | _ => True
  end.

Definition anyCall (X : Type) (c : Call X) : Prop := True.

(** What a weather lookup may do: it never stores an insight (it only
    clears it), never touches the AI flag or the console, and calls the
    weather provider and the geolocation service only. *)
Definition lookupAction (a : Action) : Prop :=
  match a with
  | SetInsight v => v = None
  | SetAiLoading _ => False
  | ConsoleError _ => False
  | _ => True
  end.

Definition lookupCall (X : Type) (c : Call X) : Prop :=
  match c with
  | GenerateContent _ _ => False
  | _ => True
  end.

(** What an insight request may do: it sets the insight and the AI flag and
    writes to the console, and calls the AI provider only. *)
Definition insightAction (a : Action) : Prop :=
  match a with
  | SetInsight _ => True
  | SetAiLoading _ => True
  | ConsoleError _ => True
  | _ => False
  end.

Definition aiCall (X : Type) (c : Call X) : Prop :=
  match c with
  | GenerateContent _ _ => True
  | _ => False
  end.

Definition isLookupCall {X : Type} (c : Call X) : bool :=
  match c with
  | GenerateContent _ _ => false
  | _ => true
  end.

Definition isLookupTask (t : Task) : bool :=
  match t with
  | Waiting c _ => isLookupCall c
  end.

Definition isInsightTask (t : Task) : bool :=
  negb (isLookupTask t).

Definition lookupInFlight (s : System) : bool :=
  existsb isLookupTask (pending s).

Definition insightInFlight (s : System) : bool :=
  existsb isInsightTask (pending s).

(** The discipline of the design: a weather lookup and an insight request
    are never in flight together.  An event respects it when it starts no
    lookup during an insight request and no insight request during a
    lookup. *)
Definition separated (ev : Event) (s : System) : bool :=
  match ev with
  | SubmitSearch | ClickLocation => negb (insightInFlight s)
  | ClickInsight => negb (lookupInFlight s)
  | _ => true
  end.

Fixpoint run_separated (env : Env) (evs : list Event) (s : System)
  : option System :=
  match evs with
  | [] => Some s
  | ev :: rest =>
      if separated ev s then
        match step env ev s with
        | Some s' => run_separated env rest s'
        | None => None
        end
      else None
  end.

(** An event that starts a weather lookup. *)
Definition startsLookup (ev : Event) : bool :=
  match ev with
  | SubmitSearch | ClickLocation => true
  | _ => false
  end.

(** A task in flight resumes, whatever the answer, as a program confined to
    what its kind may do. *)
Definition taskOK (t : Task) : Prop :=
  match t with
  | Waiting c k =>
      if isLookupCall c
      then forall x, Confined lookupAction lookupCall (k x)
      else forall x, Confined insightAction aiCall (k x)
  end.

(** The invariant of separated runs. *)
Record Disciplined (s : System) : Prop :=
  { insight_needs_weather :
      isSome (insight (ui (machine s))) = true ->
      isSome (weather (ui (machine s))) = true;
    lookup_excludes_insight :
      lookupInFlight s = true ->
      insight (ui (machine s)) = None /\ insightInFlight s = false;
    insight_request_has_weather :
      insightInFlight s = true -> isSome (weather (ui (machine s))) = true;
    tasks_confined : Forall taskOK (pending s) }.

End Program.

(** ** Vocabulary of the further properties *)

Definition OpenWeatherKeyMissing : Error :=
  mkError (lit "OpenWeather API Key is missing.").

(** The code units an encoded URI component is made of: the unreserved
    ones and the percent sign. *)
Definition urlSafe (c : code_unit) : bool :=
  unreserved c || (c =? 37).

Definition isSurrogate (c : code_unit) : bool :=
  isLeadSurrogate c || isTrailSurrogate c.

(** A string all of whose code units fit in sixteen bits. *)
Definition sixteenBit (s : jsstring) : Prop :=
  Forall (fun c => c < 65536) s.

(** The characters that structure a query string. *)
Definition queryDelimiters : jsstring := lit "&=?#/+ ".

(** The actions of the insight generator: lines on the console. *)
Definition logsOnly (a : Action) : Prop :=
  match a with
  | ConsoleError _ => True
  | _ => False
  end.

(** A message that the error box shows: [error && ...] renders nothing for
    the empty string. *)
Definition shownError (v : option jsstring) : Prop :=
  match v with
  | Some e => truthy e = true
  | None => True
  end.

(** A program of actions in [P] only, the last of which is [off]. *)
Inductive Finishing (off : Action) (P : Action -> Prop) : Prog unit -> Prop :=
| Finishing_end : Finishing off P (Do off (Ret tt))
| Finishing_Do (a : Action) (k : Prog unit) :
    P a -> Finishing off P k -> Finishing off P (Do a k).

(** A program that waits for calls in [Q], acting on none of the answers
    but the last, and then finishes. *)
Inductive Closes (off : Action) (P : Action -> Prop)
    (Q : forall X : Type, Call X -> Prop) : Prog unit -> Prop :=
| Closes_now (p : Prog unit) : Finishing off P p -> Closes off P Q p
| Closes_Await (X : Type) (c : Call X) (k : X -> Prog unit) :
    Q X c -> (forall x, Closes off P Q (k x)) -> Closes off P Q (Await c k).

(** What the end of a weather lookup stores. *)
Definition lookupResult (a : Action) : Prop :=
  match a with
  | SetWeather _ => True
  | SetCity _ => True
  | SetError v => shownError v
  | _ => False
  end.

(** What the end of an insight request stores. *)
Definition insightResult (a : Action) : Prop :=
  match a with
  | SetInsight _ => True
  | ConsoleError _ => True
  | _ => False
  end.

Definition taskCloses (t : Task) : Prop :=
  match t with
  | Waiting c k =>
      if isLookupCall c
      then forall x, Closes (SetLoading false) lookupResult lookupCall (k x)
      else forall x, Closes (SetAiLoading false) insightResult aiCall (k x)
  end.

(** The number of tasks of a kind that are in flight. *)
Definition inFlight (kind : Task -> bool) (s : System) : nat :=
  List.length (filter kind (pending s)).

Definition flagCount (flag : bool) : nat :=
  if flag then 1%nat else 0%nat.

(** The invariant of all runs: each loading flag counts the requests of its
    kind, no error is stored while a lookup runs, and a stored error is
    never empty. *)
Record Tracked (s : System) : Prop :=
  { loading_tracks :
      inFlight isLookupTask s = flagCount (loading (ui (machine s)));
    aiLoading_tracks :
      inFlight isInsightTask s = flagCount (aiLoading (ui (machine s)));
    no_error_while_loading :
      loading (ui (machine s)) = true -> error (ui (machine s)) = None;
    errors_shown : shownError (error (ui (machine s)));
    tasks_close : Forall taskCloses (pending s) }.

(** ** The variant of [App] that asks for the key

    An earlier [App.tsx] keeps the OpenWeather key in component state,
    initialised from the environment or from [localStorage], with a setup
    form ([saveApiKey]) and a reset link ([clearApiKey]). *)

Module KeySetup.

(** [localStorage]: string keys and values; [getItem] answers [null] for a
    key that is not stored. *)
Definition Storage : Type := list (jsstring * jsstring).

Fixpoint sameString (a b : jsstring) : bool :=
  match a, b with
  | [], [] => true
  | x :: a', y :: b' => (x =? y) && sameString a' b'
  | _, _ => false
  end.

Fixpoint getItem (k : jsstring) (st : Storage) : option jsstring :=
  match st with
  | [] => None
  | (k', v) :: rest => if sameString k k' then Some v else getItem k rest
  end.

Fixpoint setItem (k v : jsstring) (st : Storage) : Storage :=
  match st with
  | [] => [(k, v)]
  | (k', v') :: rest =>
      if sameString k k' then (k, v) :: rest else (k', v') :: setItem k v rest
  end.

Fixpoint removeItem (k : jsstring) (st : Storage) : Storage :=
  match st with
  | [] => []
  | (k', v') :: rest =>
      if sameString k k' then removeItem k rest
      else (k', v') :: removeItem k rest
  end.

Definition storageKey : jsstring := lit "skygen_ow_key".

(** The hooks of the component: the key, the text of the setup form, and
    the six hooks of the dashboard. *)
Record State : Type :=
  { apiKey : jsstring;
    tempApiKey : jsstring;
    app : UIState }.

(** [a || b] on two operands that may be absent. *)
Definition orElse (a b : option jsstring) : option jsstring :=
  match a with
  | Some s => if truthy s then Some s else b
  | None => b
  end.

(** The initialiser of the key:
    [process.env.OPENWEATHER_API_KEY || localStorage.getItem(...) || '']. *)
Definition initialKey (envKey : option jsstring) (st : Storage) : jsstring :=
  or_default (orElse envKey (getItem storageKey st)) [].

(** The state of a freshly mounted component. *)
Definition mount (envKey : option jsstring) (st : Storage) : State :=
  {| apiKey := initialKey envKey st; tempApiKey := []; app := initialState |}.

(** [saveApiKey], after [e.preventDefault()]. *)
Definition saveApiKey (s : State) (st : Storage) : State * Storage :=
  if truthy (trim (tempApiKey s)) then
    ({| apiKey := trim (tempApiKey s);
        tempApiKey := tempApiKey s;
        app := app s |},
     setItem storageKey (trim (tempApiKey s)) st)
  else (s, st).

Definition clearApiKey (s : State) (st : Storage) : State * Storage :=
  ({| apiKey := [];
      tempApiKey := tempApiKey s;
      app := {| city := [];
                weather := None;
                insight := None;
                loading := loading (app s);
                aiLoading := aiLoading (app s);
                error := error (app s) |} |},
   removeItem storageKey st).

(** [if (!apiKey)] the component renders the setup screen. *)
Definition setupScreen (s : State) : bool :=
  negb (truthy (apiKey s)).

End KeySetup.

(** ** Concrete runs *)

Module Sample.

(** A printer of Numbers that is exact on whole numbers of magnitude below
    1e21 (the range in which JavaScript prints plain digits) and on the
    special values; the samples below use whole numbers only. *)
Definition showNumber (x : number) : jsstring :=
  match Prim2SF x with
  | S754_zero _ => lit "0"
  | S754_infinity false => lit "Infinity"
  | S754_infinity true => lit "-Infinity"
  | S754_nan => lit "NaN"
  | S754_finite neg m e =>
      let v := (if (0 <=? e)%Z then Z.pos m * 2 ^ e
                else Z.pos m / 2 ^ (- e))%Z in
      lit (NilZero.string_of_int (Z.to_int (if neg then (- v)%Z else v)))
  end.

Definition quoted (s : string) : jsstring := [34] ++ lit s ++ [34].

(** The body of a well-formed completion. *)
Definition insightText : jsstring :=
  lit "{" ++ quoted "summary" ++ lit ":" ++ quoted "Grab a brolly."
  ++ lit "," ++ quoted "outfitAdvice" ++ lit ":" ++ quoted "A raincoat."
  ++ lit "," ++ quoted "funFact" ++ lit ":" ++ quoted "Rain smells of petrichor."
  ++ lit "}".

Definition rainInsight : GeminiInsight :=
  {| summary := lit "Grab a brolly.";
     outfitAdvice := lit "A raincoat.";
     funFact := lit "Rain smells of petrichor." |}.

Fixpoint sameText (a b : jsstring) : bool :=
  match a, b with
  | [], [] => true
  | x :: a', y :: b' => (x =? y) && sameText a' b'
  | _, _ => false
  end.

(** A stand-in for [JSON.parse] that knows the one document above and
    rejects every other text with a SyntaxError. *)
Definition parseInsight (t : jsstring) : Error + GeminiInsight :=
  if sameText t insightText then inr rainInsight
  else inl (mkError (lit "Unexpected token in JSON")).

Definition env : Env :=
  {| OPENWEATHER_API_KEY := None;
     API_KEY := Some (lit "gemini-key");
     navigator_geolocation := true |}.

Definition client : GoogleGenAI := {| clientKey := lit "gemini-key" |}.

(** The London scenario of the design's test list. *)
Definition london : WeatherData :=
  {| name := lit "London";
     sys := {| country := lit "GB" |};
     main := {| temp := 15%float; feels_like := 14%float;
                humidity := 80%float |};
     wind := {| speed := 3%float |};
     wd_weather := [{| description := lit "light rain"; icon := lit "10d" |}] |}.

Definition found : Response :=
  {| status := 200; statusText := lit "OK"; json := inr london |}.

(** A failure response; its body is never read. *)
Definition failure (code : N) (reason : string) : Response :=
  {| status := code;
     statusText := lit reason;
     json := inl (mkError (lit "Unexpected end of JSON input")) |}.

Definition notFound : Response := failure 404 "Not Found".
Definition unauthorized : Response := failure 401 "Unauthorized".
Definition serverError : Response := failure 500 "Internal Server Error".

Definition greenwich : GeolocationPosition :=
  {| coords := {| latitude := 51%float; longitude := 0%float |} |}.

Definition offline : Error := mkError (lit "fetch failed").

(** A world whose weather provider always answers [r] and whose AI provider
    always answers [g]. *)
Definition world (r : Response) (g : Error + GenerateContentResponse) : World :=
  {| net := fun _ => inr r;
     gemini := fun _ _ => g;
     geolocation := Some greenwich |}.

Definition completion : Error + GenerateContentResponse :=
  inr {| text := Some insightText |}.

Definition emptyCompletion : Error + GenerateContentResponse :=
  inr {| text := None |}.

Definition garbledCompletion : Error + GenerateContentResponse :=
  inr {| text := Some (lit "{oops") |}.

Definition key : jsstring := lit "072b5fb1fa34faa84a90bd9c35785838".

(** The runtime of the samples. *)
Definition runtime : Runtime :=
  {| numberToString := showNumber; JSON_parse := parseInsight |}.

Definition run := @run runtime env.
Definition run_separated := @run_separated runtime env.
Definition generateWeatherInsight := @generateWeatherInsight runtime.
Definition getWeatherByCoords := @getWeatherByCoords runtime.

(** London is found and an insight is requested and delivered. *)
Definition quietSession : list Event :=
  [TypeCity (lit "London");
   SubmitSearch;
   Resolve 0 (FetchAnswer (inr found));
   ClickInsight;
   Resolve 0 (GenerateAnswer completion)].

(** London is found and an insight requested; before the AI answers, a
    second search is submitted and fails with 404; then the AI answers. *)
Definition overlappingSession : list Event :=
  [TypeCity (lit "London");
   SubmitSearch;
   Resolve 0 (FetchAnswer (inr found));
   ClickInsight;
   TypeCity (lit "InvalidCity123");
   SubmitSearch;
   Resolve 1 (FetchAnswer (inr notFound));
   Resolve 0 (GenerateAnswer completion)].

(** London is found; then the location button is used and the provider
    fails with 500. *)
Definition failedLocationSession : list Event :=
  [TypeCity (lit "London");
   SubmitSearch;
   Resolve 0 (FetchAnswer (inr found));
   ClickLocation;
   Resolve 0 (PositionAnswer (Some greenwich));
   Resolve 0 (FetchAnswer (inr serverError))].

(** London is found; then a second search fails with 404. *)
Definition failedSearchSession : list Event :=
  [TypeCity (lit "London");
   SubmitSearch;
   Resolve 0 (FetchAnswer (inr found));
   TypeCity (lit "InvalidCity123");
   SubmitSearch;
   Resolve 0 (FetchAnswer (inr notFound))].

(** A second search is submitted while London is displayed and the insight
    is requested before the provider answers; the AI answers first, then
    the search fails with 404. *)
Definition insightDuringLookupSession : list Event :=
  [TypeCity (lit "London");
   SubmitSearch;
   Resolve 0 (FetchAnswer (inr found));
   TypeCity (lit "InvalidCity123");
   SubmitSearch;
   ClickInsight;
   Resolve 1 (GenerateAnswer completion);
   Resolve 0 (FetchAnswer (inr notFound))].

(** The machine after [c] was typed into the city field. *)
Definition typed (c : jsstring) : Machine :=
  apply_action (SetCity c) initialMachine.

(** The system a run ends in (the initial system if the run is refused). *)
Definition lastSystem (evs : list Event) : System :=
  match run evs initialSystem with
  | Some s => s
  | None => initialSystem
  end.

(** The component state a run ends in. *)
Definition finalState (evs : list Event) : option UIState :=
  match run evs initialSystem with
  | Some s => Some (ui (machine s))
  | None => None
  end.

(** A browser without geolocation and a deployment without Gemini key. *)
Definition bareEnv : Env :=
  {| OPENWEATHER_API_KEY := None;
     API_KEY := None;
     navigator_geolocation := false |}.

(** A deployment without Gemini key in a browser with geolocation. *)
Definition noAiEnv : Env :=
  {| OPENWEATHER_API_KEY := None;
     API_KEY := Some [];
     navigator_geolocation := true |}.

(** A world in which the position query fails. *)
Definition nowhere : World :=
  {| net := fun _ => inr found;
     gemini := fun _ _ => completion;
     geolocation := None |}.

(** A world without network. *)
Definition unplugged : World :=
  {| net := fun _ => inl offline;
     gemini := fun _ _ => inl offline;
     geolocation := Some greenwich |}.

(** A snapshot whose weather array is empty. *)
Definition bare : WeatherData :=
  {| name := lit "Nowhere";
     sys := {| country := lit "ZZ" |};
     main := {| temp := 0%float; feels_like := 0%float; humidity := 0%float |};
     wind := {| speed := 0%float |};
     wd_weather := [] |}.

(** The machine that displays London. *)
Definition showingLondon : Machine :=
  apply_action (SetWeather (Some london)) (typed (lit "London")).

(** A search is submitted and not yet answered. *)
Definition searchingSession : list Event :=
  [TypeCity (lit "London"); SubmitSearch].

(** London is displayed and an insight is requested and not yet answered. *)
Definition consultingSession : list Event :=
  [TypeCity (lit "London");
   SubmitSearch;
   Resolve 0 (FetchAnswer (inr found));
   ClickInsight].

(** The setup form holding a padded key, over a storage with another
    item. *)
Definition setupForm : KeySetup.State :=
  {| KeySetup.apiKey := [];
     KeySetup.tempApiKey := lit "  abc123 ";
     KeySetup.app := initialState |}.

Definition otherStorage : KeySetup.Storage := [(lit "theme", lit "dark")].

End Sample.

(** * Properties *)

Section Properties.

Context {runtime : Runtime}.

Set Default Proof Using "Type".

(** ** Properties of the weather client *)

Lemma apiKey_truthy (env : Env) : truthy (apiKey env) = true.
Proof.
  unfold apiKey, or_default.
  destruct (OPENWEATHER_API_KEY env) as [[|c k]|]; reflexivity.
Qed.

Lemma not_ok_404 (r : Response) : status r = 404 -> ok r = false.
Proof. unfold ok. intros ->. reflexivity. Qed.

Lemma not_ok_401 (r : Response) : status r = 401 -> ok r = false.
Proof. unfold ok. intros ->. reflexivity. Qed.

(** What [getWeatherByCity] returns once the provider has answered. *)
Lemma getWeatherByCity_answered (w : World) (city enc key : jsstring)
    (r : Response) (m : Machine) :
  truthy key = true ->
  encodeURIComponent city = inr enc ->
  net w (cityUrl enc key) = inr r ->
  snd (exec w (getWeatherByCity city key) m) =
    if negb (ok r) then
      if status r =? 404 then inl NotFound
      else if status r =? 401 then inl InvalidCredentials
      else inl (ProviderError (statusText r))
    else json r.
Proof.
  intros Hkey Henc Hnet. unfold getWeatherByCity.
  rewrite Hkey, Henc. cbn [negb of_result bind await exec answer].
  rewrite Hnet. cbn [bind].
  destruct (negb (ok r)).
  - destruct (status r =? 404); [reflexivity|].
    destruct (status r =? 401); reflexivity.
  - destruct (json r); reflexivity.
Qed.

Lemma getWeatherByCoords_answered (w : World) (lat lon : number)
    (key : jsstring) (r : Response) (m : Machine) :
  truthy key = true ->
  net w (coordsUrl lat lon key) = inr r ->
  snd (exec w (getWeatherByCoords lat lon key) m) =
    if negb (ok r) then
      if status r =? 401 then inl InvalidCredentials
      else inl (ProviderError (statusText r))
    else json r.
Proof.
  intros Hkey Hnet. unfold getWeatherByCoords.
  rewrite Hkey. cbn [negb of_result bind await exec answer].
  rewrite Hnet. cbn [bind].
  destruct (negb (ok r)).
  - destruct (status r =? 401); reflexivity.
  - destruct (json r); reflexivity.
Qed.

(** C1. The status mapping depends on the lookup path exactly at 404: on a
    city-name lookup a 404 response fails with NotFound ('City not found.
    Please try again.'), on a coordinate lookup it falls through to
    ProviderError ('Weather API Error: ' and the status text); every other
    non-success status except 401 fails, on both paths, with ProviderError
    carrying the status text of the response. *)
Theorem status_mapping_path_dependent_at_404 (w : World) (key : jsstring) :
  truthy key = true ->
  (forall city enc r m,
     encodeURIComponent city = inr enc ->
     net w (cityUrl enc key) = inr r ->
     (status r = 404 ->
        snd (exec w (getWeatherByCity city key) m) = inl NotFound)
     /\ (ok r = false -> status r <> 404 -> status r <> 401 ->
           snd (exec w (getWeatherByCity city key) m) =
             inl (ProviderError (statusText r))))
  /\ (forall lat lon r m,
        net w (coordsUrl lat lon key) = inr r ->
        (status r = 404 ->
           snd (exec w (getWeatherByCoords lat lon key) m) =
             inl (ProviderError (statusText r)))
        /\ (ok r = false -> status r <> 404 -> status r <> 401 ->
              snd (exec w (getWeatherByCoords lat lon key) m) =
                inl (ProviderError (statusText r))))
  /\ message NotFound = lit "City not found. Please try again."
  /\ (forall t, message (ProviderError t) = lit "Weather API Error: " ++ t).
Proof.
  intros Hkey. split; [|split; [|split; reflexivity]].
  - intros city enc r m Henc Hnet.
    rewrite getWeatherByCity_answered with (enc := enc) (r := r) by assumption.
    split.
    + intros H. rewrite (not_ok_404 _ H), H. reflexivity.
    + intros Hok H404 H401. rewrite Hok. cbn [negb].
      apply N.eqb_neq in H404, H401. rewrite H404, H401. reflexivity.
  - intros lat lon r m Hnet.
    rewrite getWeatherByCoords_answered with (r := r) by assumption.
    split.
    + intros H. rewrite (not_ok_404 _ H), H. reflexivity.
    + intros Hok _ H401. rewrite Hok. cbn [negb].
      apply N.eqb_neq in H401. rewrite H401. reflexivity.
Qed.

Lemma InvalidCredentials_not_ProviderError (t : jsstring) :
  InvalidCredentials <> ProviderError t.
Proof. unfold InvalidCredentials, ProviderError. cbn. discriminate. Qed.

(** C5. On either lookup path a 401 response fails with InvalidCredentials
    ('Invalid OpenWeather API Key.'), and that error is not a ProviderError
    whatever the status text. *)
Theorem unauthorized_is_InvalidCredentials (w : World) (key : jsstring) :
  truthy key = true ->
  (forall city enc r m,
     encodeURIComponent city = inr enc ->
     net w (cityUrl enc key) = inr r ->
     status r = 401 ->
     snd (exec w (getWeatherByCity city key) m) = inl InvalidCredentials)
  /\ (forall lat lon r m,
        net w (coordsUrl lat lon key) = inr r ->
        status r = 401 ->
        snd (exec w (getWeatherByCoords lat lon key) m) =
          inl InvalidCredentials)
  /\ message InvalidCredentials = lit "Invalid OpenWeather API Key."
  /\ (forall t, InvalidCredentials <> ProviderError t).
Proof.
  intros Hkey. split; [|split; [|split]].
  - intros city enc r m Henc Hnet H.
    rewrite getWeatherByCity_answered with (enc := enc) (r := r) by assumption.
    rewrite (not_ok_401 _ H), H. reflexivity.
  - intros lat lon r m Hnet H.
    rewrite getWeatherByCoords_answered with (r := r) by assumption.
    rewrite (not_ok_401 _ H), H. reflexivity.
  - reflexivity.
  - apply InvalidCredentials_not_ProviderError.
Qed.

(** ** Properties of the insight generator *)

(** What [generateWeatherInsight] does once the prompt is built. *)
Lemma generateWeatherInsight_answered (w : World) (client : GoogleGenAI)
    (wd : WeatherData) (desc : jsstring) (m : Machine) :
  firstDescription wd = inr desc ->
  exec w (generateWeatherInsight (Some client) wd) m =
    let m1 := issue (insightCall client wd desc) m in
    match gemini w client (insightRequest (promptFor wd desc)) with
    | inl e => (logged e m1, inl GenerationFailed)
    | inr response =>
        match textOf response with
        | None => (logged EmptyResponse m1, inl GenerationFailed)
        | Some t =>
            match JSON_parse t with
            | inl e => (logged e m1, inl GenerationFailed)
            | inr parsed => (m1, inr parsed)
            end
        end
    end.
Proof.
  intros Hdesc. unfold generateWeatherInsight. rewrite Hdesc.
  cbn [of_result bind await try_catch exec answer insightCall].
  destruct (gemini w client (insightRequest (promptFor wd desc))) as [e|resp].
  - reflexivity.
  - cbn [bind try_catch]. destruct (textOf resp) as [t|].
    + destruct (JSON_parse t) as [e|parsed]; reflexivity.
    + reflexivity.
Qed.

(** C3, as the code has it. When the completion call succeeds with an empty
    or absent body, the EmptyResponse error ('No response from Gemini') is
    raised inside the try block, so the function's own catch logs it and
    replaces it: the caller receives GenerationFailed, the very outcome of a
    call-level failure, and only the console line tells the two apart. *)
Theorem empty_body_surfaces_as_GenerationFailed
    (w : World) (client : GoogleGenAI) (wd : WeatherData) (desc : jsstring)
    (m : Machine) :
  firstDescription wd = inr desc ->
  emptyBody w client wd desc ->
  exec w (generateWeatherInsight (Some client) wd) m =
    (logged EmptyResponse (issue (insightCall client wd desc) m),
     inl GenerationFailed)
  /\ forall w' cause m',
       callFails w' client wd desc cause ->
       snd (exec w' (generateWeatherInsight (Some client) wd) m') =
       snd (exec w (generateWeatherInsight (Some client) wd) m).
Proof.
  intros Hdesc (resp & Hcall & Htext). split.
  - rewrite generateWeatherInsight_answered with (desc := desc) by assumption.
    rewrite Hcall, Htext. reflexivity.
  - intros w' cause m' Hfail.
    rewrite !generateWeatherInsight_answered with (desc := desc) by assumption.
    rewrite Hcall, Htext.
    destruct Hfail as [Hrej | (resp' & t & Hres & Ht & Hparse)].
    + rewrite Hrej. reflexivity.
    + rewrite Hres, Ht, Hparse. reflexivity.
Qed.

(** C6. Every call-level failure of the completion (the call rejected by the
    network or the provider, or a text that does not parse) makes
    [generateWeatherInsight] fail with GenerationFailed, whose message is
    the fixed 'Failed to generate AI insight.'; the original cause is written
    to the console and nothing of it reaches the caller. *)
Theorem call_failure_is_GenerationFailed
    (w : World) (client : GoogleGenAI) (wd : WeatherData) (desc : jsstring)
    (cause : Error) (m : Machine) :
  firstDescription wd = inr desc ->
  callFails w client wd desc cause ->
  exec w (generateWeatherInsight (Some client) wd) m =
    (logged cause (issue (insightCall client wd desc) m), inl GenerationFailed)
  /\ message GenerationFailed = lit "Failed to generate AI insight."
  /\ console (logged cause (issue (insightCall client wd desc) m)) =
       console m ++ [insightLog cause].
Proof.
  intros Hdesc Hfail. split; [|split; reflexivity].
  rewrite generateWeatherInsight_answered with (desc := desc) by assumption.
  destruct Hfail as [Hrej | (resp & t & Hres & Ht & Hparse)].
  - rewrite Hrej. reflexivity.
  - rewrite Hres, Ht, Hparse. reflexivity.
Qed.

Lemma MissingAiCredentials_not_GenerationFailed :
  MissingAiCredentials <> GenerationFailed.
Proof. unfold MissingAiCredentials, GenerationFailed. cbn. discriminate. Qed.

(** C9. Without a client the missing-credentials error is thrown before the
    try block: nothing is logged, no call is issued and the error reaches
    the caller as it is, not as GenerationFailed.  With a client, once the
    prompt is built, any failure whatever (empty body, network, provider or
    parse) reaches the caller as the one error GenerationFailed. *)
Theorem configuration_error_raw_other_failures_uniform
    (w : World) (wd : WeatherData) (m : Machine) :
  (generateWeatherInsight None wd = Throw MissingAiCredentials
   /\ exec w (generateWeatherInsight None wd) m = (m, inl MissingAiCredentials)
   /\ MissingAiCredentials <> GenerationFailed)
  /\ forall client desc e,
       firstDescription wd = inr desc ->
       snd (exec w (generateWeatherInsight (Some client) wd) m) = inl e ->
       e = GenerationFailed.
Proof.
  split.
  - repeat split. apply MissingAiCredentials_not_GenerationFailed.
  - intros client desc e Hdesc.
    rewrite generateWeatherInsight_answered with (desc := desc) by assumption.
    cbv zeta.
    destruct (gemini w client (insightRequest (promptFor wd desc))) as [c|resp].
    + cbn [snd]. congruence.
    + destruct (textOf resp) as [t|].
      * destruct (JSON_parse t); cbn [snd]; congruence.
      * cbn [snd]. congruence.
Qed.

(** ** Confinement *)

Section ConfinedFacts.

Variable P : Action -> Prop.
Variable Q : forall X : Type, Call X -> Prop.

Lemma Confined_bind {A B : Type} (p : Prog A) (f : A -> Prog B) :
  Confined P Q p -> (forall a, Confined P Q (f a)) -> Confined P Q (bind p f).
Proof.
  intros Hp Hf. induction Hp; cbn [bind]; auto using Confined.
Qed.

Lemma Confined_try_catch {A : Type} (p : Prog A) (h : Error -> Prog A) :
  Confined P Q p -> (forall e, Confined P Q (h e)) ->
  Confined P Q (try_catch p h).
Proof.
  intros Hp Hh. induction Hp; cbn [try_catch]; auto using Confined.
Qed.

Lemma Confined_try_finally {A : Type} (p : Prog A) (fin : Prog unit) :
  Confined P Q p -> Confined P Q fin -> Confined P Q (try_finally p fin).
Proof.
  intros Hp Hfin. induction Hp; cbn [try_finally];
    auto using Confined, Confined_bind.
Qed.

(** A property of the component state that the actions in [P] preserve is
    preserved by a confined program, however its calls are answered. *)
Variable Inv : UIState -> Prop.
Hypothesis Inv_stable :
  forall a m, P a -> Inv (ui m) -> Inv (ui (apply_action a m)).

Lemma exec_confined {A : Type} (w : World) (p : Prog A) :
  Confined P Q p -> forall m, Inv (ui m) -> Inv (ui (fst (exec w p m))).
Proof using Inv_stable.
  induction 1; intros m Hm; cbn [exec fst]; auto.
Qed.

Lemma run_sync_confined {A : Type} (p : Prog A) :
  Confined P Q p ->
  forall m, Inv (ui m) ->
  Inv (ui (fst (run_sync p m)))
  /\ match snd (run_sync p m) with
     | Finished _ => True
     | @Blocked _ X c k => Q X c /\ forall x, Confined P Q (k x)
     end.
Proof using Inv_stable.
  induction 1; intros m Hm; cbn [run_sync fst snd]; auto.
Qed.

End ConfinedFacts.

Ltac confined :=
  repeat first
    [ apply Confined_Ret
    | apply Confined_Throw
    | apply Confined_Do; [cbn; solve [exact I | reflexivity] | ]
    | apply Confined_Await; [cbn; exact I | intro]
    | apply Confined_bind; [ | intro]
    | apply Confined_try_catch; [ | intro]
    | apply Confined_try_finally
    | match goal with
      | |- Confined _ _ (if ?b then _ else _) => destruct b
      | |- Confined _ _ (match ?x with _ => _ end) => destruct x
      end ].


Lemma getWeatherByCoords_confined (P : Action -> Prop) (lat lon : number)
    (key : jsstring) :
  Confined P lookupCall (getWeatherByCoords lat lon key).
Proof. unfold getWeatherByCoords, of_result, await. confined. Qed.

Lemma generateWeatherInsight_confined (P : Action -> Prop)
    (client : option GoogleGenAI) (wd : WeatherData) :
  (forall args, P (ConsoleError args)) ->
  Confined P aiCall (generateWeatherInsight client wd).
Proof.
  intros Hlog. unfold generateWeatherInsight, of_result, await.
  destruct client; [|confined].
  apply Confined_bind; [confined|intro].
  apply Confined_try_catch; [confined|intro].
  apply Confined_Do; [apply Hlog|confined].
Qed.

(** ** Properties of the handlers *)

Lemma trimStart_whitespace (s : jsstring) :
  forallb isWhiteSpace s = true -> trimStart s = [].
Proof.
  induction s as [|c s IH]; cbn [forallb trimStart]; [reflexivity|].
  intros H. apply andb_prop in H as [Hc Hs]. rewrite Hc. auto.
Qed.

Lemma trim_whitespace (s : jsstring) :
  forallb isWhiteSpace s = true -> trim s = [].
Proof.
  intros H. unfold trim. rewrite trimStart_whitespace by assumption.
  reflexivity.
Qed.

(** C7. When the city is empty or consists of white space only, submitting
    the search form issues no call and leaves the whole component state
    (weather, insight, error, both loading flags, city) as it was: the
    handler only prevents the default action of the event. *)
Theorem blank_city_submit_is_noop
    (env : Env) (w : World) (m : Machine) (waiting : list Task) :
  forallb isWhiteSpace (city (ui m)) = true ->
  handleSearch env (ui m) = (PreventDefault ;; Ret tt)
  /\ exec w (handleSearch env (ui m)) m = (m, inr tt)
  /\ launch (handleSearch env (ui m)) m waiting =
       {| machine := m; pending := waiting |}.
Proof.
  intros Hblank. unfold handleSearch, launch.
  rewrite trim_whitespace by assumption. cbn [truthy].
  repeat split.
Qed.

(** C8. When no weather snapshot is held, the insight handler returns at
    once: it calls nothing, the AI provider included, and changes no
    state. *)
Theorem insight_without_weather_is_noop
    (env : Env) (w : World) (m : Machine) (waiting : list Task) :
  weather (ui m) = None ->
  handleGetInsight env (ui m) = Ret tt
  /\ exec w (handleGetInsight env (ui m)) m = (m, inr tt)
  /\ launch (handleGetInsight env (ui m)) m waiting =
       {| machine := m; pending := waiting |}.
Proof.
  intros Hnone. unfold handleGetInsight, launch. rewrite Hnone.
  repeat split.
Qed.

Lemma fetchWeather_keepsCity (env : Env) (searchCity : jsstring) :
  Confined keepsCity anyCall (fetchWeather env searchCity).
Proof.
  unfold fetchWeather, getWeatherByCity, of_result, await, act. confined.
Qed.

Lemma handleSearch_keepsCity (env : Env) (st : UIState) :
  Confined keepsCity anyCall (handleSearch env st).
Proof.
  unfold handleSearch. apply Confined_Do; [exact I|].
  destruct (truthy (trim (city st))); [apply fetchWeather_keepsCity|confined].
Qed.

Lemma keepsCity_stable (c : jsstring) (a : Action) (m : Machine) :
  keepsCity a -> city (ui m) = c -> city (ui (apply_action a m)) = c.
Proof.
  destruct a; cbn; intros Ha Hm; solve [exact Hm | exact Ha | contradiction].
Qed.

(** The coordinate lookup, run to completion after a position fix and a
    successful response. *)
Lemma fetchWeatherByLocation_success (env : Env) (w : World)
    (position : GeolocationPosition) (r : Response) (data : WeatherData)
    (m : Machine) :
  navigator_geolocation env = true ->
  geolocation w = Some position ->
  net w (coordsUrl (latitude (coords position)) (longitude (coords position))
           (apiKey env)) = inr r ->
  ok r = true ->
  json r = inr data ->
  ui (fst (exec w (fetchWeatherByLocation env) m)) =
    {| city := if truthy (name data) then name data else city (ui m);
       weather := Some data;
       insight := None;
       loading := false;
       aiLoading := aiLoading (ui m);
       error := None |}.
Proof.
  intros Hgeo Hpos Hnet Hok Hjson.
  unfold fetchWeatherByLocation. rewrite apiKey_truthy, Hgeo.
  cbn [negb exec answer]. rewrite Hpos.
  unfold onPosition, getWeatherByCoords. rewrite apiKey_truthy.
  cbn [negb await bind try_catch try_finally exec answer].
  rewrite Hnet. cbn [bind try_catch try_finally].
  rewrite Hok, Hjson. cbn [negb of_result bind try_catch try_finally exec].
  destruct (truthy (name data)); reflexivity.
Qed.

(** C10. A successful coordinate lookup whose snapshot has a non-empty name
    overwrites the city input with that name; the city-name lookup path,
    however the provider answers, leaves the city input as it was. *)
Theorem location_lookup_sets_city_search_does_not
    (env : Env) (w : World) (position : GeolocationPosition) (r : Response)
    (data : WeatherData) (m : Machine) :
  navigator_geolocation env = true ->
  geolocation w = Some position ->
  net w (coordsUrl (latitude (coords position)) (longitude (coords position))
           (apiKey env)) = inr r ->
  ok r = true ->
  json r = inr data ->
  truthy (name data) = true ->
  (city (ui (fst (exec w (fetchWeatherByLocation env) m))) = name data
   /\ weather (ui (fst (exec w (fetchWeatherByLocation env) m))) = Some data)
  /\ (forall w' searchCity m',
        city (ui (fst (exec w' (fetchWeather env searchCity) m'))) =
        city (ui m'))
  /\ (forall w' m',
        city (ui (fst (exec w' (handleSearch env (ui m')) m'))) =
        city (ui m')).
Proof.
  intros Hgeo Hpos Hnet Hok Hjson Hname. split; [|split].
  - rewrite fetchWeatherByLocation_success
      with (position := position) (r := r) (data := data) by assumption.
    cbn [city weather]. rewrite Hname. split; reflexivity.
  - intros w' searchCity m'.
    apply exec_confined with (P := keepsCity) (Q := anyCall)
      (Inv := fun st => city st = city (ui m')).
    + intros a m0. apply keepsCity_stable.
    + apply fetchWeather_keepsCity.
    + reflexivity.
  - intros w' m'.
    apply exec_confined with (P := keepsCity) (Q := anyCall)
      (Inv := fun st => city st = city (ui m')).
    + intros a m0. apply keepsCity_stable.
    + apply handleSearch_keepsCity.
    + reflexivity.
Qed.

(** ** The state machine *)

Lemma launch_Do (a : Action) (k : Prog unit) (m : Machine)
    (waiting : list Task) :
  launch (Do a k) m waiting = launch k (apply_action a m) waiting.
Proof. reflexivity. Qed.

Lemma existsb_remove_nth {A : Type} (f : A -> bool) (i : nat) (l : list A) :
  existsb f l = false -> existsb f (remove_nth i l) = false.
Proof.
  revert i. induction l as [|x l IH]; intros [|i] H; cbn in *; auto.
  - apply orb_false_elim in H as [_ H]. exact H.
  - apply orb_false_elim in H as [Hx H]. rewrite Hx. cbn. auto.
Qed.

Lemma Forall_remove_nth {A : Type} (R : A -> Prop) (i : nat) (l : list A) :
  Forall R l -> Forall R (remove_nth i l).
Proof.
  intros H. revert i. induction H as [|x l Hx Hl IH]; intros [|i]; cbn; auto.
Qed.

Lemma nth_error_existsb {A : Type} (f : A -> bool) (l : list A) (i : nat)
    (x : A) :
  nth_error l i = Some x -> f x = true -> existsb f l = true.
Proof.
  intros Hnth Hx. apply existsb_exists. exists x. split; [|exact Hx].
  eapply nth_error_In. exact Hnth.
Qed.

Lemma lookupCall_bool (X : Type) (c : Call X) :
  lookupCall X c -> isLookupCall c = true.
Proof. destruct c; cbn; intros Hc; solve [reflexivity | contradiction]. Qed.

Lemma aiCall_bool (X : Type) (c : Call X) :
  aiCall X c -> isLookupCall c = false.
Proof. destruct c; cbn; intros Hc; solve [reflexivity | contradiction]. Qed.

Lemma lookupAction_keeps_no_insight (a : Action) (m : Machine) :
  lookupAction a ->
  insight (ui m) = None -> insight (ui (apply_action a m)) = None.
Proof.
  destruct a; cbn; intros Ha Hm; solve [exact Hm | exact Ha | contradiction].
Qed.

Lemma insightAction_keeps_weather (a : Action) (m : Machine) :
  insightAction a ->
  isSome (weather (ui m)) = true ->
  isSome (weather (ui (apply_action a m))) = true.
Proof.
  destruct a; cbn; intros Ha Hm; solve [exact Hm | exact Ha | contradiction].
Qed.

Lemma resume_lookup (t : Task) (a : Answer) (p : Prog unit) :
  taskOK t -> isLookupTask t = true -> resume t a = Some p ->
  Confined lookupAction lookupCall p.
Proof.
  destruct t as [X c k]. destruct c; cbn; intros Hok Hkind Hres;
    try discriminate; destruct a; try discriminate;
    injection Hres as <-; apply Hok.
Qed.

Lemma resume_insight (t : Task) (a : Answer) (p : Prog unit) :
  taskOK t -> isLookupTask t = false -> resume t a = Some p ->
  Confined insightAction aiCall p.
Proof.
  destruct t as [X c k]. destruct c; cbn; intros Hok Hkind Hres;
    try discriminate; destruct a; try discriminate;
    injection Hres as <-; apply Hok.
Qed.

(** Starting or resuming a lookup while no insight is stored or requested. *)
Lemma lookup_launch_disciplined (p : Prog unit) (m : Machine)
    (waiting : list Task) :
  Confined lookupAction lookupCall p ->
  insight (ui m) = None ->
  Forall taskOK waiting ->
  existsb isInsightTask waiting = false ->
  Disciplined (launch p m waiting).
Proof.
  intros Hp Hnone Htasks Hfree.
  destruct (run_sync_confined lookupAction lookupCall
              (fun st => insight st = None) lookupAction_keeps_no_insight
              p Hp m Hnone) as [Hins Hstage].
  unfold launch. destruct (run_sync p m) as [m' [r|X c k]];
    cbn [fst snd] in Hins, Hstage.
  - constructor; cbn [machine pending]; unfold lookupInFlight, insightInFlight;
      cbn [pending]; auto.
    + rewrite Hins. discriminate.
    + rewrite Hfree. discriminate.
  - destruct Hstage as [Hc Hk].
    assert (Hnew : existsb isInsightTask (waiting ++ [Waiting c k]) = false).
    { rewrite existsb_app, Hfree. cbn. unfold isInsightTask. cbn.
      rewrite (lookupCall_bool X c Hc). reflexivity. }
    constructor; cbn [machine pending]; unfold lookupInFlight, insightInFlight;
      cbn [pending]; auto.
    + rewrite Hins. discriminate.
    + rewrite Hnew. discriminate.
    + apply Forall_app. split; [assumption|]. constructor; [|constructor].
      cbn. rewrite (lookupCall_bool X c Hc). exact Hk.
Qed.

(** Starting or resuming an insight request while a snapshot is held and no
    lookup is in flight. *)
Lemma insight_launch_disciplined (p : Prog unit) (m : Machine)
    (waiting : list Task) :
  Confined insightAction aiCall p ->
  isSome (weather (ui m)) = true ->
  Forall taskOK waiting ->
  existsb isLookupTask waiting = false ->
  Disciplined (launch p m waiting).
Proof.
  intros Hp Hweather Htasks Hfree.
  destruct (run_sync_confined insightAction aiCall
              (fun st => isSome (weather st) = true)
              insightAction_keeps_weather p Hp m Hweather) as [Hw Hstage].
  unfold launch. destruct (run_sync p m) as [m' [r|X c k]];
    cbn [fst snd] in Hw, Hstage.
  - constructor; cbn [machine pending]; unfold lookupInFlight, insightInFlight;
      cbn [pending]; auto.
    rewrite Hfree. discriminate.
  - destruct Hstage as [Hc Hk].
    assert (Hnew : existsb isLookupTask (waiting ++ [Waiting c k]) = false).
    { rewrite existsb_app, Hfree. cbn.
      rewrite (aiCall_bool X c Hc). reflexivity. }
    constructor; cbn [machine pending]; unfold lookupInFlight, insightInFlight;
      cbn [pending]; auto.
    + rewrite Hnew. discriminate.
    + apply Forall_app. split; [assumption|]. constructor; [|constructor].
      cbn. rewrite (aiCall_bool X c Hc). exact Hk.
Qed.

(** A change of the component state that touches neither the weather nor
    the insight keeps the invariant. *)
Lemma Disciplined_same (s : System) (m : Machine) :
  Disciplined s ->
  weather (ui m) = weather (ui (machine s)) ->
  insight (ui m) = insight (ui (machine s)) ->
  Disciplined {| machine := m; pending := pending s |}.
Proof.
  intros [HA HB HC HD] Hw Hi.
  constructor; cbn [machine pending]; unfold lookupInFlight, insightInFlight;
    cbn [pending]; rewrite ?Hw, ?Hi; assumption.
Qed.

Lemma Disciplined_initial : Disciplined initialSystem.
Proof.
  constructor; cbn; try discriminate. constructor.
Qed.

Lemma step_disciplined (env : Env) (ev : Event) (s s' : System) :
  Disciplined s ->
  separated ev s = true ->
  step env ev s = Some s' ->
  Disciplined s'.
Proof.
  intros Hd Hsep Hstep. destruct ev as [value| | | |i a]; cbn [step] in Hstep.
  - (* typing into the city field *)
    injection Hstep as <-.
    apply Disciplined_same; [assumption|reflexivity|reflexivity].
  - (* submitting the search form *)
    destruct (searchEnabled (ui (machine s))); [|discriminate].
    injection Hstep as <-.
    cbn [separated] in Hsep. apply negb_true_iff in Hsep.
    unfold handleSearch. rewrite launch_Do.
    destruct (truthy (trim (city (ui (machine s))))).
    + unfold fetchWeather. rewrite apiKey_truthy. cbn [negb].
      rewrite !launch_Do.
      apply lookup_launch_disciplined;
        [|reflexivity|apply (tasks_confined s Hd)|exact Hsep].
      unfold getWeatherByCity, of_result, await, act. confined.
    + apply Disciplined_same; [assumption|reflexivity|reflexivity].
  - (* asking for the current location *)
    destruct (locationEnabled (ui (machine s))); [|discriminate].
    injection Hstep as <-.
    cbn [separated] in Hsep. apply negb_true_iff in Hsep.
    unfold fetchWeatherByLocation. rewrite apiKey_truthy. cbn [negb].
    destruct (navigator_geolocation env); cbn [negb].
    + rewrite !launch_Do.
      apply lookup_launch_disciplined;
        [|reflexivity|apply (tasks_confined s Hd)|exact Hsep].
      unfold onPosition, onPositionError, getWeatherByCoords, of_result,
        await, act.
      confined.
    + apply Disciplined_same; [assumption|reflexivity|reflexivity].
  - (* asking for an insight *)
    destruct (insightEnabled (ui (machine s))); [|discriminate].
    injection Hstep as <-.
    cbn [separated] in Hsep. apply negb_true_iff in Hsep.
    unfold handleGetInsight.
    destruct (weather (ui (machine s))) as [wd|] eqn:Hw.
    + rewrite launch_Do.
      apply insight_launch_disciplined;
        [|cbn; rewrite Hw; reflexivity|apply (tasks_confined s Hd)|exact Hsep].
      apply Confined_try_finally; [|unfold act; confined].
      apply Confined_try_catch; [|intro; unfold act; confined].
      apply Confined_bind; [|intro; unfold act; confined].
      apply generateWeatherInsight_confined. intro. exact I.
    + apply Disciplined_same; [assumption|reflexivity|reflexivity].
  - (* an answer arrives *)
    destruct (nth_error (pending s) i) as [t|] eqn:Hnth; [|discriminate].
    destruct (resume t a) as [p|] eqn:Hres; [|discriminate].
    injection Hstep as <-.
    assert (Ht : taskOK t).
    { apply (proj1 (Forall_forall _ _) (tasks_confined s Hd)).
      eapply nth_error_In. exact Hnth. }
    destruct (isLookupTask t) eqn:Hkind.
    + assert (Hfly : lookupInFlight s = true)
        by (eapply nth_error_existsb; eassumption).
      destruct (lookup_excludes_insight s Hd Hfly) as [Hnone Hfree].
      apply lookup_launch_disciplined.
      * eapply resume_lookup; eassumption.
      * exact Hnone.
      * apply Forall_remove_nth. apply (tasks_confined s Hd).
      * apply existsb_remove_nth. exact Hfree.
    + assert (Hfly : insightInFlight s = true).
      { eapply nth_error_existsb; [eassumption|].
        unfold isInsightTask. rewrite Hkind. reflexivity. }
      assert (Hfree : lookupInFlight s = false).
      { destruct (lookupInFlight s) eqn:E; [|reflexivity].
        destruct (lookup_excludes_insight s Hd E) as [_ Hno].
        rewrite Hno in Hfly. discriminate. }
      apply insight_launch_disciplined.
      * eapply resume_insight; eassumption.
      * apply (insight_request_has_weather s Hd Hfly).
      * apply Forall_remove_nth. apply (tasks_confined s Hd).
      * apply existsb_remove_nth. exact Hfree.
Qed.

Lemma run_separated_disciplined (env : Env) (evs : list Event) :
  forall s s',
    Disciplined s -> run_separated env evs s = Some s' -> Disciplined s'.
Proof.
  induction evs as [|ev evs IH]; intros s s' Hd Hrun; cbn [run_separated] in Hrun.
  - injection Hrun as <-. exact Hd.
  - destruct (separated ev s) eqn:Hsep; [|discriminate].
    destruct (step env ev s) as [s1|] eqn:Hstep; [|discriminate].
    eapply IH; [|exact Hrun]. eapply step_disciplined; eassumption.
Qed.

(** A separated run is a run. *)
Lemma run_separated_run (env : Env) (evs : list Event) :
  forall s s', run_separated env evs s = Some s' -> run env evs s = Some s'.
Proof.
  induction evs as [|ev evs IH]; intros s s' Hrun;
    cbn [run_separated run] in *; [exact Hrun|].
  destruct (separated ev s); [|discriminate].
  destruct (step env ev s); [auto|discriminate].
Qed.

(** A transition that puts a weather lookup in flight has cleared the
    insight and the error. *)
Lemma lookup_start_clears (env : Env) (ev : Event) (s s' : System) :
  startsLookup ev = true ->
  step env ev s = Some s' ->
  List.length (pending s') = S (List.length (pending s)) ->
  insight (ui (machine s')) = None
  /\ error (ui (machine s')) = None
  /\ exists t, pending s' = pending s ++ [t] /\ isLookupTask t = true.
Proof.
  intros Hev Hstep Hlen.
  destruct ev as [value| | | |i a]; try discriminate; cbn [step] in Hstep.
  - destruct (searchEnabled (ui (machine s))); [|discriminate].
    injection Hstep as <-. revert Hlen.
    unfold handleSearch. rewrite launch_Do.
    destruct (truthy (trim (city (ui (machine s))))).
    + unfold fetchWeather, getWeatherByCity. rewrite apiKey_truthy.
      cbn [negb]. rewrite !launch_Do.
      destruct (encodeURIComponent (city (ui (machine s)))) as [e|enc].
      * cbn. intros Hlen. lia.
      * intros _. cbn. repeat split. eexists. split; reflexivity.
    + cbn. intros Hlen. lia.
  - destruct (locationEnabled (ui (machine s))); [|discriminate].
    injection Hstep as <-. revert Hlen.
    unfold fetchWeatherByLocation. rewrite apiKey_truthy. cbn [negb].
    destruct (navigator_geolocation env); cbn [negb].
    + intros _. cbn. repeat split. eexists. split; reflexivity.
    + cbn. intros Hlen. lia.
Qed.

(** C4, as the code has it. In every state reached by a run that keeps
    weather lookups and insight requests apart (no lookup is started while
    an insight request is in flight, and no insight is requested while a
    lookup is in flight), an insight is stored only if a weather snapshot is
    stored; and every transition that puts a weather lookup in flight (city
    submit or geolocation) leaves the stored insight and the error message
    empty while that request is still unresolved. *)
Theorem insight_requires_weather_when_separated
    (env : Env) (evs : list Event) (s : System) :
  run_separated env evs initialSystem = Some s ->
  (run env evs initialSystem = Some s
   /\ (isSome (insight (ui (machine s))) = true ->
       isSome (weather (ui (machine s))) = true))
  /\ (forall ev s0 s1,
        startsLookup ev = true ->
        step env ev s0 = Some s1 ->
        List.length (pending s1) = S (List.length (pending s0)) ->
        insight (ui (machine s1)) = None
        /\ error (ui (machine s1)) = None
        /\ exists t, pending s1 = pending s0 ++ [t] /\ isLookupTask t = true).
Proof.
  intros Hrun. split; [split|].
  - apply run_separated_run. exact Hrun.
  - apply insight_needs_weather.
    eapply run_separated_disciplined; [apply Disciplined_initial|exact Hrun].
  - intros ev s0 s1. apply lookup_start_clears.
Qed.

(** ** Failed lookups *)

Lemma exec_bind {A B : Type} (w : World) (p : Prog A) (f : A -> Prog B) :
  forall m,
    exec w (bind p f) m =
    match exec w p m with
    | (m', inr a) => exec w (f a) m'
    | (m', inl e) => (m', inl e)
    end.
Proof. induction p; intros m; cbn [bind exec]; auto. Qed.

Lemma exec_try_catch {A : Type} (w : World) (p : Prog A)
    (h : Error -> Prog A) :
  forall m,
    exec w (try_catch p h) m =
    match exec w p m with
    | (m', inr a) => (m', inr a)
    | (m', inl e) => exec w (h e) m'
    end.
Proof. induction p; intros m; cbn [try_catch exec]; auto. Qed.

Lemma exec_try_finally {A : Type} (w : World) (p : Prog A) (fin : Prog unit) :
  forall m,
    exec w (try_finally p fin) m =
    match exec w p m with
    | (m', r) =>
        match exec w fin m' with
        | (m'', inr _) => (m'', r)
        | (m'', inl e) => (m'', inl e)
        end
    end.
Proof.
  induction p; intros m; cbn [try_finally exec]; auto;
    rewrite exec_bind; destruct (exec w fin m) as [m' [e'|[]]]; reflexivity.
Qed.

(** The outcome of a program is decided by the world alone. *)
Lemma exec_result_world {A : Type} (w : World) (p : Prog A) :
  forall m m', snd (exec w p m) = snd (exec w p m').
Proof. induction p; intros m m'; cbn [exec snd]; auto. Qed.

(** The weather client performs no action: it leaves the component state
    alone. *)
Lemma client_keeps_ui {A : Type} (w : World) (p : Prog A) (m : Machine) :
  Confined (fun _ => False) lookupCall p -> ui (fst (exec w p m)) = ui m.
Proof.
  intros Hp.
  apply exec_confined with (P := fun _ => False) (Q := lookupCall)
    (Inv := fun st => st = ui m);
    [intros a m0 Ha; contradiction|exact Hp|reflexivity].
Qed.


(** A failed coordinate lookup stores one message and keeps whatever
    weather was displayed. *)
Lemma onPosition_failure (env : Env) (w : World)
    (position : GeolocationPosition) (e : Error) (m : Machine) :
  snd (exec w (getWeatherByCoords (latitude (coords position))
                 (longitude (coords position)) (apiKey env)) m) = inl e ->
  ui (fst (exec w (onPosition env position) m)) =
    {| city := city (ui m);
       weather := weather (ui m);
       insight := insight (ui m);
       loading := false;
       aiLoading := aiLoading (ui m);
       error := Some (or_default (Some (message e))
                        (lit "Failed to fetch weather from location")) |}.
Proof.
  intros Hfail. unfold onPosition.
  rewrite exec_try_finally, exec_try_catch, exec_bind.
  pose proof (client_keeps_ui w _ m
                (getWeatherByCoords_confined _ (latitude (coords position))
                   (longitude (coords position)) (apiKey env))) as Hui.
  destruct (exec w (getWeatherByCoords (latitude (coords position))
                      (longitude (coords position)) (apiKey env)) m)
    as [m2 r].
  cbn [fst snd] in Hui, Hfail. subst r. cbn. rewrite Hui. reflexivity.
Qed.

(** * Further properties *)

(** ** The weather client *)

(** X1. The weather client touches neither the component state nor the
    console and issues at most one request: none when the key is empty
    (it then fails with 'OpenWeather API Key is missing.', whatever the
    city) or when the city does not encode, otherwise exactly the request
    for the URL of the lookup. *)
Theorem weather_client_requests (w : World) (city key : jsstring)
    (lat lon : number) (m : Machine) :
  (ui (fst (exec w (getWeatherByCity city key) m)) = ui m
   /\ console (fst (exec w (getWeatherByCity city key) m)) = console m
   /\ requests (fst (exec w (getWeatherByCity city key) m)) =
        requests m ++
        (if truthy key then
           match encodeURIComponent city with
           | inr enc => [Requested (Fetch (cityUrl enc key))]
           | inl _ => []
           end
         else []))
  /\ (ui (fst (exec w (getWeatherByCoords lat lon key) m)) = ui m
      /\ console (fst (exec w (getWeatherByCoords lat lon key) m)) = console m
      /\ requests (fst (exec w (getWeatherByCoords lat lon key) m)) =
           requests m ++
           (if truthy key then [Requested (Fetch (coordsUrl lat lon key))]
            else []))
  /\ (truthy key = false ->
      snd (exec w (getWeatherByCity city key) m) = inl OpenWeatherKeyMissing
      /\ snd (exec w (getWeatherByCoords lat lon key) m) =
           inl OpenWeatherKeyMissing).
Proof.
  unfold getWeatherByCity, getWeatherByCoords.
  destruct (truthy key); cbn [negb].
  - split; [|split; [|discriminate]].
    + destruct (encodeURIComponent city) as [e|enc];
        cbn [of_result bind await exec answer fst];
        [rewrite app_nil_r; repeat split|].
      destruct (net w (cityUrl enc key)) as [e|r]; cbn [bind exec fst];
        [repeat split|].
      destruct (negb (ok r));
        [destruct (status r =? 404); [|destruct (status r =? 401)]
        |destruct (json r)]; repeat split.
    + cbn [of_result bind await exec answer fst].
      destruct (net w (coordsUrl lat lon key)) as [e|r]; cbn [bind exec fst];
        [repeat split|].
      destruct (negb (ok r));
        [destruct (status r =? 401)|destruct (json r)]; repeat split.
  - cbn [exec fst snd]. rewrite app_nil_r. repeat split.
Qed.

(** X2. The weather client adds nothing of its own to a rejection or to a
    success: when the request is rejected (a network failure) the caller
    gets that very error, and on a success status it gets exactly what the
    body of the response parses to. *)
Theorem weather_client_passes_through (w : World) (key : jsstring) :
  truthy key = true ->
  (forall city enc m,
     encodeURIComponent city = inr enc ->
     (forall e, net w (cityUrl enc key) = inl e ->
                snd (exec w (getWeatherByCity city key) m) = inl e)
     /\ (forall r, net w (cityUrl enc key) = inr r -> ok r = true ->
                   snd (exec w (getWeatherByCity city key) m) = json r))
  /\ (forall lat lon m,
        (forall e, net w (coordsUrl lat lon key) = inl e ->
                   snd (exec w (getWeatherByCoords lat lon key) m) = inl e)
        /\ (forall r, net w (coordsUrl lat lon key) = inr r -> ok r = true ->
                      snd (exec w (getWeatherByCoords lat lon key) m) =
                        json r)).
Proof.
  intros Hkey. split.
  - intros city enc m Henc. split.
    + intros e Hnet. unfold getWeatherByCity. rewrite Hkey, Henc.
      cbn [negb of_result bind await exec answer]. rewrite Hnet. reflexivity.
    + intros r Hnet Hok.
      rewrite getWeatherByCity_answered with (enc := enc) (r := r)
        by assumption.
      rewrite Hok. reflexivity.
  - intros lat lon m. split.
    + intros e Hnet. unfold getWeatherByCoords. rewrite Hkey.
      cbn [negb of_result bind await exec answer]. rewrite Hnet. reflexivity.
    + intros r Hnet Hok.
      rewrite getWeatherByCoords_answered with (r := r) by assumption.
      rewrite Hok. reflexivity.
Qed.

(** ** The query of a city lookup *)

Lemma isAlnum_digit (d : N) : d < 10 -> isAlnum (48 + d) = true.
Proof.
  intros H. unfold isAlnum. apply orb_true_iff. left. apply orb_true_iff. left.
  apply andb_true_iff. split; apply N.leb_le; lia.
Qed.

Lemma isAlnum_letter (d : N) : 10 <= d -> d < 16 -> isAlnum (55 + d) = true.
Proof.
  intros H1 H2. unfold isAlnum. apply orb_true_iff. left.
  apply orb_true_iff. right. apply andb_true_iff.
  split; apply N.leb_le; lia.
Qed.

Lemma unreserved_alnum (c : code_unit) : isAlnum c = true -> unreserved c = true.
Proof. intros H. unfold unreserved. rewrite H. reflexivity. Qed.

Lemma hexDigit_safe (d : N) : d < 16 -> urlSafe (hexDigit d) = true.
Proof.
  intros H. unfold urlSafe, hexDigit. apply orb_true_iff. left.
  apply unreserved_alnum. destruct (d <? 10) eqn:E.
  - apply N.ltb_lt in E. apply isAlnum_digit. exact E.
  - apply N.ltb_ge in E. apply isAlnum_letter; assumption.
Qed.

Lemma percent_safe (octet : N) :
  octet < 256 -> forallb urlSafe (percent octet) = true.
Proof.
  intros H. unfold percent. cbn [forallb].
  rewrite !hexDigit_safe; [reflexivity| |].
  - apply N.mod_lt. discriminate.
  - apply N.Div0.div_lt_upper_bound. exact H.
Qed.

Lemma percentAll_safe (octets : list N) :
  Forall (fun o => o < 256) octets -> forallb urlSafe (percentAll octets) = true.
Proof.
  induction 1 as [|o os Ho Hos IH]; [reflexivity|].
  unfold percentAll in *. cbn [flat_map]. rewrite forallb_app.
  rewrite percent_safe by assumption. exact IH.
Qed.

(** The octets of a code point of Unicode are octets. *)
Lemma utf8_octets (cp : N) :
  cp < 1114112 -> Forall (fun o => o < 256) (utf8 cp).
Proof.
  intros H. unfold utf8.
  destruct (cp <? 128) eqn:E1; [apply N.ltb_lt in E1; repeat constructor; lia|].
  destruct (cp <? 2048) eqn:E2.
  { apply N.ltb_lt in E2.
    assert (cp / 64 < 32) by (apply N.Div0.div_lt_upper_bound; lia).
    assert (cp mod 64 < 64) by (apply N.mod_lt; discriminate).
    repeat constructor; lia. }
  destruct (cp <? 65536) eqn:E3.
  { apply N.ltb_lt in E3.
    assert (cp / 4096 < 16) by (apply N.Div0.div_lt_upper_bound; lia).
    assert ((cp / 64) mod 64 < 64) by (apply N.mod_lt; discriminate).
    assert (cp mod 64 < 64) by (apply N.mod_lt; discriminate).
    repeat constructor; lia. }
  assert (cp / 262144 < 5) by (apply N.Div0.div_lt_upper_bound; lia).
  assert ((cp / 4096) mod 64 < 64) by (apply N.mod_lt; discriminate).
  assert ((cp / 64) mod 64 < 64) by (apply N.mod_lt; discriminate).
  assert (cp mod 64 < 64) by (apply N.mod_lt; discriminate).
  repeat constructor; lia.
Qed.

Lemma prepend_inr (pre : jsstring) (r : Error + jsstring) (enc : jsstring) :
  prepend pre r = inr enc -> exists t, r = inr t /\ enc = pre ++ t.
Proof.
  destruct r as [e|t]; cbn; [discriminate|].
  intros H. injection H as <-. exists t. split; reflexivity.
Qed.

Lemma prepend_inl (pre : jsstring) (r : Error + jsstring) (e : Error) :
  prepend pre r = inl e -> r = inl e.
Proof. destruct r as [e'|t]; cbn; [intros H; exact H|discriminate]. Qed.

Lemma encodeURIComponent_safe_upto (n : nat) :
  forall s enc,
    (List.length s <= n)%nat ->
    sixteenBit s ->
    encodeURIComponent s = inr enc ->
    forallb urlSafe enc = true.
Proof.
  induction n as [|n IH]; intros s enc Hlen Hs Henc.
  - destruct s; [|cbn in Hlen; lia]. cbn in Henc. injection Henc as <-.
    reflexivity.
  - destruct s as [|c rest]; [cbn in Henc; injection Henc as <-; reflexivity|].
    cbn [List.length] in Hlen. inversion Hs as [|c' rest' Hc Hrest]; subst.
    cbn [encodeURIComponent] in Henc.
    destruct (unreserved c) eqn:Hun.
    { apply prepend_inr in Henc as (t & Ht & ->).
      cbn [app forallb]. unfold urlSafe at 1. rewrite Hun. cbn [orb andb].
      apply (IH rest); [lia|assumption|assumption]. }
    destruct (isLeadSurrogate c) eqn:Hlead.
    { destruct rest as [|d rest2]; [discriminate|].
      destruct (isTrailSurrogate d) eqn:Htrail; [|discriminate].
      apply prepend_inr in Henc as (t & Ht & ->).
      inversion Hrest as [|d' rest2' Hd Hrest2]; subst.
      rewrite forallb_app. apply andb_true_iff. split.
      - apply percentAll_safe. apply utf8_octets.
        unfold isLeadSurrogate in Hlead. unfold isTrailSurrogate in Htrail.
        apply andb_true_iff in Hlead as [L1 L2].
        apply andb_true_iff in Htrail as [T1 T2].
        apply N.leb_le in L1, L2, T1, T2. lia.
      - apply (IH rest2); [cbn [List.length] in Hlen; lia|assumption|assumption]. }
    destruct (isTrailSurrogate c); [discriminate|].
    apply prepend_inr in Henc as (t & Ht & ->).
    rewrite forallb_app. apply andb_true_iff. split.
    + apply percentAll_safe. apply utf8_octets. lia.
    + apply (IH rest); [lia|assumption|assumption].
Qed.

Lemma delimiters_not_safe (c : code_unit) :
  In c queryDelimiters -> urlSafe c = false.
Proof.
  cbn. intros H.
  repeat (destruct H as [<-|H]; [reflexivity|]). contradiction.
Qed.

(** X3. The city reaches the query of the request as an encoded component:
    for a string of sixteen-bit code units the encoding consists of
    unreserved characters and percent signs only, so none of the characters
    that structure a query (ampersand, equals sign, question mark, hash,
    slash, plus, space) occurs in it and a city cannot add parameters of
    its own. *)
Theorem encoded_city_has_no_delimiters (s enc : jsstring) :
  sixteenBit s ->
  encodeURIComponent s = inr enc ->
  forallb urlSafe enc = true
  /\ forall c, In c queryDelimiters -> ~ In c enc.
Proof.
  intros Hs Henc.
  assert (Hsafe : forallb urlSafe enc = true)
    by (apply (encodeURIComponent_safe_upto (List.length s) s);
        [apply le_n|assumption|assumption]).
  split; [exact Hsafe|].
  intros c Hdel Hin.
  pose proof (proj1 (forallb_forall urlSafe enc) Hsafe c Hin) as Hc.
  rewrite (delimiters_not_safe c Hdel) in Hc. discriminate.
Qed.

Lemma encodeURIComponent_error_upto (n : nat) :
  forall s e,
    (List.length s <= n)%nat -> encodeURIComponent s = inl e -> e = URIError.
Proof.
  induction n as [|n IH]; intros s e Hlen Henc.
  - destruct s; [discriminate|cbn in Hlen; lia].
  - destruct s as [|c rest]; [discriminate|].
    cbn [List.length] in Hlen. cbn [encodeURIComponent] in Henc.
    destruct (unreserved c).
    { apply prepend_inl in Henc. apply (IH rest); [lia|assumption]. }
    destruct (isLeadSurrogate c).
    { destruct rest as [|d rest2]; [congruence|].
      destruct (isTrailSurrogate d); [|congruence].
      apply prepend_inl in Henc.
      apply (IH rest2); [cbn [List.length] in Hlen; lia|assumption]. }
    destruct (isTrailSurrogate c); [congruence|].
    apply prepend_inl in Henc. apply (IH rest); [lia|assumption].
Qed.

Lemma encodeURIComponent_no_surrogate (s : jsstring) :
  forallb (fun c => negb (isSurrogate c)) s = true ->
  exists enc, encodeURIComponent s = inr enc.
Proof.
  induction s as [|c rest IH]; cbn [forallb encodeURIComponent].
  - intros _. exists []. reflexivity.
  - intros H. apply andb_true_iff in H as [Hc Hrest].
    destruct (IH Hrest) as [t Ht]. rewrite Ht.
    apply negb_true_iff in Hc. unfold isSurrogate in Hc.
    apply orb_false_elim in Hc as [Hlead Htrail]. rewrite Hlead, Htrail.
    destruct (unreserved c); cbn [prepend]; eexists; reflexivity.
Qed.

Lemma encodeURIComponent_unreserved (s : jsstring) :
  forallb unreserved s = true -> encodeURIComponent s = inr s.
Proof.
  induction s as [|c rest IH]; cbn [forallb encodeURIComponent];
    [reflexivity|].
  intros H. apply andb_true_iff in H as [Hc Hrest].
  rewrite Hc, (IH Hrest). reflexivity.
Qed.

Lemma getWeatherByCity_requests (w : World) (city enc key : jsstring)
    (m : Machine) :
  truthy key = true ->
  encodeURIComponent city = inr enc ->
  requests (fst (exec w (getWeatherByCity city key) m)) =
    requests m ++ [Requested (Fetch (cityUrl enc key))].
Proof.
  intros Hkey Henc. unfold getWeatherByCity. rewrite Hkey, Henc.
  cbn [negb of_result bind await exec answer].
  destruct (net w (cityUrl enc key)) as [e|r]; cbn [bind exec fst];
    [reflexivity|].
  destruct (negb (ok r));
    [destruct (status r =? 404); [|destruct (status r =? 401)]
    |destruct (json r)]; reflexivity.
Qed.

(** X4. A city lookup is stopped before the network by the encoding of the
    city only for a lone surrogate.  With a key, a city without surrogate
    code units always puts its request on the network; a city of letters,
    digits and [-_.!~*'()] goes into the URL as it is; and when the
    encoding fails the lookup fails with the URIError and no request. *)
Theorem city_lookup_reaches_network (w : World) (city key : jsstring)
    (m : Machine) :
  truthy key = true ->
  (forallb (fun c => negb (isSurrogate c)) city = true ->
   exists enc,
     encodeURIComponent city = inr enc
     /\ requests (fst (exec w (getWeatherByCity city key) m)) =
          requests m ++ [Requested (Fetch (cityUrl enc key))])
  /\ (forallb unreserved city = true ->
      requests (fst (exec w (getWeatherByCity city key) m)) =
        requests m ++ [Requested (Fetch (cityUrl city key))])
  /\ (forall e, encodeURIComponent city = inl e ->
        exec w (getWeatherByCity city key) m = (m, inl URIError)).
Proof.
  intros Hkey. split; [|split].
  - intros Hfree.
    destruct (encodeURIComponent_no_surrogate city Hfree) as [enc Henc].
    exists enc. split; [exact Henc|].
    apply getWeatherByCity_requests; assumption.
  - intros Hun. apply getWeatherByCity_requests; [assumption|].
    apply encodeURIComponent_unreserved. exact Hun.
  - intros e Henc.
    pose proof (encodeURIComponent_error_upto (List.length city) city e
                  (le_n _) Henc) as ->.
    unfold getWeatherByCity. rewrite Hkey, Henc. reflexivity.
Qed.

(** ** The search form *)

Lemma trimStart_nil_blank (s : jsstring) :
  trimStart s = [] -> forallb isWhiteSpace s = true.
Proof.
  induction s as [|c s IH]; cbn [trimStart forallb]; [reflexivity|].
  destruct (isWhiteSpace c); [exact IH|discriminate].
Qed.

(** What [trimStart] leaves begins with a character that is not white
    space. *)
Lemma trimStart_head (s : jsstring) (c : code_unit) (rest : jsstring) :
  trimStart s = c :: rest -> isWhiteSpace c = false.
Proof.
  induction s as [|x s IH]; cbn [trimStart]; [discriminate|].
  destruct (isWhiteSpace x) eqn:E; [exact IH|].
  intros H. injection H as <- _. exact E.
Qed.

Lemma trimStart_blank_false (s : jsstring) :
  forallb isWhiteSpace s = false -> trimStart s <> [].
Proof.
  intros H Hnil. rewrite (trimStart_nil_blank s Hnil) in H. discriminate.
Qed.

Lemma truthy_trim (s : jsstring) :
  truthy (trim s) = negb (forallb isWhiteSpace s).
Proof.
  destruct (forallb isWhiteSpace s) eqn:Hblank.
  - rewrite trim_whitespace by assumption. reflexivity.
  - unfold trim, trimEnd.
    destruct (trimStart s) as [|c rest] eqn:Hstart;
      [exfalso; revert Hstart; apply trimStart_blank_false; exact Hblank|].
    pose proof (trimStart_head s c rest Hstart) as Hc.
    assert (Hrev : forallb isWhiteSpace (rev (c :: rest)) = false).
    { cbn [rev]. rewrite forallb_app. cbn [forallb]. rewrite Hc.
      cbn [andb]. apply andb_false_r. }
    pose proof (trimStart_blank_false _ Hrev) as Hne.
    destruct (trimStart (rev (c :: rest))) as [|d l]; [contradiction|].
    cbn [rev]. destruct (rev l); reflexivity.
Qed.

(** X11. The submit button is enabled exactly when no lookup is loading and
    the city has a character that is not white space; submitting such a
    city starts the lookup with the city as it was typed, surrounding
    white space included. *)
Theorem search_enabled_iff_city_not_blank (env : Env) (st : UIState) :
  searchEnabled st =
    negb (loading st) && negb (forallb isWhiteSpace (city st))
  /\ (forallb isWhiteSpace (city st) = false ->
      handleSearch env st = (PreventDefault ;; fetchWeather env (city st))).
Proof.
  split.
  - unfold searchEnabled. rewrite truthy_trim, negb_involutive.
    apply negb_orb.
  - intros H. unfold handleSearch. rewrite truthy_trim, H. reflexivity.
Qed.

(** ** The outcome of the handlers *)

Lemma or_default_truthy (a : option jsstring) (b : jsstring) :
  truthy b = true -> truthy (or_default a b) = true.
Proof.
  intros Hb. unfold or_default. destruct a as [s|]; [|exact Hb].
  destruct (truthy s) eqn:E; [exact E|exact Hb].
Qed.


(** X6. Without a position no weather request is made.  When the browser
    has no geolocation, the location button only stores 'Geolocation is not
    supported by your browser': nothing is requested and neither loading
    nor insight nor weather changes.  When the position query fails, the
    only request made is that query; 'Unable to retrieve your location' is
    stored, loading is off again, and the weather on display stays. *)
Theorem location_unavailable (env : Env) (w : World) (m : Machine) :
  (navigator_geolocation env = false ->
   exec w (fetchWeatherByLocation env) m =
     (apply_action
        (SetError (Some (lit "Geolocation is not supported by your browser")))
        m,
      inr tt))
  /\ (navigator_geolocation env = true ->
      geolocation w = None ->
      exec w (fetchWeatherByLocation env) m =
        ({| ui := {| city := city (ui m);
                     weather := weather (ui m);
                     insight := None;
                     loading := false;
                     aiLoading := aiLoading (ui m);
                     error := Some (lit "Unable to retrieve your location") |};
            console := console m;
            requests := requests m ++ [Requested GetCurrentPosition] |},
         inr tt)).
Proof.
  unfold fetchWeatherByLocation. rewrite apiKey_truthy. cbn [negb]. split.
  - intros ->. reflexivity.
  - intros -> Hpos. cbn [negb exec answer]. rewrite Hpos. reflexivity.
Qed.

(** ** The insight handler *)

Lemma logsOnly_keeps_ui (st : UIState) (a : Action) (m : Machine) :
  logsOnly a -> ui m = st -> ui (apply_action a m) = st.
Proof. destruct a; cbn; intros Ha Hm; solve [exact Hm | contradiction]. Qed.

(** The insight generator leaves the component state alone. *)
Lemma generator_keeps_ui (w : World) (client : option GoogleGenAI)
    (wd : WeatherData) (m : Machine) :
  ui (fst (exec w (generateWeatherInsight client wd) m)) = ui m.
Proof.
  apply exec_confined with (P := logsOnly) (Q := aiCall)
    (Inv := fun st => st = ui m).
  - intros a m0. apply logsOnly_keeps_ui.
  - apply generateWeatherInsight_confined. intro. exact I.
  - reflexivity.
Qed.

(** X7. Asking for an insight never touches what the dashboard shows of the
    weather: when the handler has run to its end, whatever the AI provider
    did, city, weather, loading and error are as before and the AI flag is
    off; the insight is the generated one on success and is left as it was
    on failure; the handler itself never fails. *)
Theorem insight_request_outcome (env : Env) (w : World) (wd : WeatherData)
    (m : Machine) :
  weather (ui m) = Some wd ->
  ui (fst (exec w (handleGetInsight env (ui m)) m)) =
    {| city := city (ui m);
       weather := Some wd;
       insight :=
         match snd (exec w (generateWeatherInsight (ai (API_KEY env)) wd) m)
         with
         | inr data => Some data
         | inl _ => insight (ui m)
         end;
       loading := loading (ui m);
       aiLoading := false;
       error := error (ui m) |}
  /\ snd (exec w (handleGetInsight env (ui m)) m) = inr tt.
Proof.
  intros Hw. unfold handleGetInsight. rewrite Hw. cbn [exec].
  rewrite exec_try_finally, exec_try_catch, exec_bind.
  match goal with
  | |- context [exec w (generateWeatherInsight ?c wd) ?m1] =>
      pose proof (generator_keeps_ui w c wd m1) as Hkeep;
      pose proof (exec_result_world w (generateWeatherInsight c wd) m1 m)
        as Hsame;
      destruct (exec w (generateWeatherInsight c wd) m1) as [m2 r]
  end.
  cbn [fst snd] in Hkeep, Hsame. rewrite <- Hsame.
  destruct r as [e|data]; cbn; rewrite Hkeep; cbn; rewrite Hw;
    split; reflexivity.
Qed.

Lemma ai_absent (key : option jsstring) :
  key = None \/ key = Some [] -> ai key = None.
Proof. intros [->| ->]; reflexivity. Qed.

(** X8. Without a Gemini key (absent or empty) the insight button is inert:
    no request is made, the missing-credentials error is written to the
    console as it is, and the component state ends as it was. *)
Theorem insight_button_inert_without_key (env : Env) (w : World)
    (wd : WeatherData) (m : Machine) :
  API_KEY env = None \/ API_KEY env = Some [] ->
  weather (ui m) = Some wd ->
  aiLoading (ui m) = false ->
  exec w (handleGetInsight env (ui m)) m =
    ({| ui := ui m;
        console := console m ++ [[LogError MissingAiCredentials]];
        requests := requests m |},
     inr tt).
Proof.
  intros Hkey Hw Hflag. unfold handleGetInsight.
  rewrite Hw, (ai_absent _ Hkey). cbn.
  destruct m as [[c wt i l a e] co rq]. cbn in *. subst a. reflexivity.
Qed.

Lemma TypeError_not_GenerationFailed :
  mkError (lit "Cannot read properties of undefined (reading 'description')")
  <> GenerationFailed.
Proof. unfold GenerationFailed. cbn. discriminate. Qed.

(** X9. The prompt is built before the try block.  For a snapshot whose
    weather array is empty, reading [weather.weather[0].description] fails
    there: the generator makes no request, writes nothing to the console
    and fails with that error, not with GenerationFailed. *)
Theorem insight_for_empty_conditions (w : World) (client : GoogleGenAI)
    (wd : WeatherData) (m : Machine) :
  wd_weather wd = [] ->
  exists e,
    exec w (generateWeatherInsight (Some client) wd) m = (m, inl e)
    /\ e <> GenerationFailed.
Proof.
  intros Hempty. eexists. split.
  - unfold generateWeatherInsight, firstDescription. rewrite Hempty.
    reflexivity.
  - apply TypeError_not_GenerationFailed.
Qed.

(** X10. The insight generator makes at most one request, the completion
    for the prompt of the snapshot, and writes to the console exactly when
    it fails after making it: on success the parsed document is returned
    and the console is as before. *)
Theorem insight_generator_effects (w : World) (client : GoogleGenAI)
    (wd : WeatherData) (desc : jsstring) (m : Machine) :
  firstDescription wd = inr desc ->
  requests (fst (exec w (generateWeatherInsight (Some client) wd) m)) =
    requests m ++ [Requested (insightCall client wd desc)]
  /\ (forall data,
        snd (exec w (generateWeatherInsight (Some client) wd) m) = inr data ->
        console (fst (exec w (generateWeatherInsight (Some client) wd) m)) =
          console m
        /\ exists response t,
             gemini w client (insightRequest (promptFor wd desc)) =
               inr response
             /\ textOf response = Some t
             /\ JSON_parse t = inr data)
  /\ (forall e,
        snd (exec w (generateWeatherInsight (Some client) wd) m) = inl e ->
        exists cause,
          console (fst (exec w (generateWeatherInsight (Some client) wd) m)) =
            console m ++ [insightLog cause]).
Proof.
  intros Hdesc.
  rewrite generateWeatherInsight_answered with (desc := desc) by assumption.
  cbv zeta.
  destruct (gemini w client (insightRequest (promptFor wd desc)))
    as [c|response].
  - split; [reflexivity|]. split; [discriminate|].
    intros e _. exists c. reflexivity.
  - destruct (textOf response) as [t|] eqn:Ht.
    + destruct (JSON_parse t) as [c|parsed] eqn:Hp.
      * split; [reflexivity|]. split; [discriminate|].
        intros e _. exists c. reflexivity.
      * split; [reflexivity|]. split; [|discriminate].
        intros data H. cbn [snd] in H. injection H as <-.
        split; [reflexivity|]. exists response, t. repeat split; assumption.
    + split; [reflexivity|]. split; [discriminate|].
      intros e _. exists EmptyResponse. reflexivity.
Qed.

(** ** The loading flags *)

Lemma filter_remove_nth {A : Type} (f : A -> bool) (l : list A) (i : nat)
    (x : A) :
  nth_error l i = Some x ->
  List.length (filter f l) =
    (flagCount (f x) + List.length (filter f (remove_nth i l)))%nat.
Proof.
  revert i. induction l as [|y l IH]; intros [|i] H; cbn in H;
    try discriminate.
  - injection H as <-. cbn [filter remove_nth]. destruct (f y); reflexivity.
  - cbn [filter remove_nth]. pose proof (IH i H) as E.
    destruct (f y); cbn [List.length]; lia.
Qed.

Lemma filter_one {A : Type} (f : A -> bool) (l : list A) (x : A) :
  List.length (filter f (l ++ [x])) =
    (List.length (filter f l) + flagCount (f x))%nat.
Proof.
  rewrite filter_app, List.length_app. cbn [filter].
  destruct (f x); reflexivity.
Qed.

Lemma finishing_lookup (p : Prog unit) :
  Finishing (SetLoading false) lookupResult p ->
  forall m,
    shownError (error (ui m)) ->
    exists m',
      run_sync p m = (m', Finished (inr tt))
      /\ loading (ui m') = false
      /\ aiLoading (ui m') = aiLoading (ui m)
      /\ shownError (error (ui m')).
Proof.
  induction 1 as [|a k Ha Hk IH]; intros m Herr.
  - eexists. split; [reflexivity|]. repeat split. exact Herr.
  - destruct (IH (apply_action a m)) as (m' & Hrun & Hl & Ha' & He).
    + destruct a; cbn in *; solve [exact Herr | exact Ha | contradiction].
    + exists m'. cbn [run_sync]. rewrite Hrun. repeat split; try assumption.
      rewrite Ha'. destruct a; cbn in *; solve [reflexivity | contradiction].
Qed.

Lemma finishing_insight (p : Prog unit) :
  Finishing (SetAiLoading false) insightResult p ->
  forall m,
    exists m',
      run_sync p m = (m', Finished (inr tt))
      /\ aiLoading (ui m') = false
      /\ loading (ui m') = loading (ui m)
      /\ error (ui m') = error (ui m).
Proof.
  induction 1 as [|a k Ha Hk IH]; intros m.
  - eexists. split; [reflexivity|]. repeat split.
  - destruct (IH (apply_action a m)) as (m' & Hrun & Hflag & Hl & He).
    exists m'. cbn [run_sync]. rewrite Hrun. repeat split; try assumption.
    + rewrite Hl. destruct a; cbn in *; solve [reflexivity | contradiction].
    + rewrite He. destruct a; cbn in *; solve [reflexivity | contradiction].
Qed.

(** Starting or resuming a lookup, the only one in flight. *)
Lemma tracked_lookup_launch (p : Prog unit) (m : Machine)
    (waiting : list Task) :
  Closes (SetLoading false) lookupResult lookupCall p ->
  loading (ui m) = true ->
  error (ui m) = None ->
  List.length (filter isLookupTask waiting) = 0%nat ->
  List.length (filter isInsightTask waiting) = flagCount (aiLoading (ui m)) ->
  Forall taskCloses waiting ->
  Tracked (launch p m waiting).
Proof.
  intros Hp Hload Herr Hnone Hai Htasks.
  destruct Hp as [p Hfin|X c k Hc Hk].
  - destruct (finishing_lookup p Hfin m) as (m' & Hrun & Hl & Ha & He).
    { rewrite Herr. exact I. }
    unfold launch. rewrite Hrun.
    constructor; unfold inFlight; cbn [machine pending].
    + rewrite Hl. exact Hnone.
    + rewrite Ha. exact Hai.
    + rewrite Hl. discriminate.
    + exact He.
    + exact Htasks.
  - unfold launch. cbn [run_sync].
    assert (Hkind : isLookupTask (Waiting c k) = true)
      by (apply lookupCall_bool; exact Hc).
    constructor; unfold inFlight; cbn [machine pending issue ui].
    + rewrite filter_one, Hnone, Hkind, Hload. reflexivity.
    + rewrite filter_one, Hai. unfold isInsightTask. rewrite Hkind.
      cbn [negb flagCount]. lia.
    + intros _. exact Herr.
    + rewrite Herr. exact I.
    + apply Forall_app. split; [exact Htasks|]. constructor; [|constructor].
      cbn [taskCloses]. cbn [isLookupTask] in Hkind. rewrite Hkind. exact Hk.
Qed.

(** Starting or resuming an insight request, the only one in flight. *)
Lemma tracked_insight_launch (p : Prog unit) (m : Machine)
    (waiting : list Task) :
  Closes (SetAiLoading false) insightResult aiCall p ->
  aiLoading (ui m) = true ->
  List.length (filter isInsightTask waiting) = 0%nat ->
  List.length (filter isLookupTask waiting) = flagCount (loading (ui m)) ->
  (loading (ui m) = true -> error (ui m) = None) ->
  shownError (error (ui m)) ->
  Forall taskCloses waiting ->
  Tracked (launch p m waiting).
Proof.
  intros Hp Hflag Hnone Hlook Herr Hshown Htasks.
  destruct Hp as [p Hfin|X c k Hc Hk].
  - destruct (finishing_insight p Hfin m) as (m' & Hrun & Ha & Hl & He).
    unfold launch. rewrite Hrun.
    constructor; unfold inFlight; cbn [machine pending].
    + rewrite Hl. exact Hlook.
    + rewrite Ha. exact Hnone.
    + rewrite Hl, He. exact Herr.
    + rewrite He. exact Hshown.
    + exact Htasks.
  - unfold launch. cbn [run_sync].
    assert (Hkind : isLookupTask (Waiting c k) = false)
      by (apply aiCall_bool; exact Hc).
    constructor; unfold inFlight; cbn [machine pending issue ui].
    + rewrite filter_one, Hlook, Hkind. cbn [flagCount]. lia.
    + rewrite filter_one, Hnone. unfold isInsightTask. rewrite Hkind.
      rewrite Hflag. reflexivity.
    + exact Herr.
    + exact Hshown.
    + apply Forall_app. split; [exact Htasks|]. constructor; [|constructor].
      cbn [taskCloses]. cbn [isLookupTask] in Hkind. rewrite Hkind. exact Hk.
Qed.

Ltac finish_steps :=
  repeat first
    [ apply Finishing_end
    | apply Finishing_Do;
      [ cbn [lookupResult insightResult shownError];
        first [exact I | apply or_default_truthy; reflexivity | reflexivity]
      | ] ].

Ltac finishing := apply Closes_now; finish_steps.

Ltac settle :=
  cbn [negb of_result bind try_catch try_finally await act].

(** After its three clearing setters [fetchWeather] is a lookup that
    closes. *)
Lemma fetchWeather_closes (env : Env) (searchCity : jsstring) :
  exists body,
    fetchWeather env searchCity =
      (SetLoading true ;; SetError None ;; SetInsight None ;; body)
    /\ Closes (SetLoading false) lookupResult lookupCall body.
Proof.
  unfold fetchWeather. rewrite apiKey_truthy. cbn [negb].
  eexists. split; [reflexivity|].
  unfold getWeatherByCity. rewrite apiKey_truthy.
  destruct (encodeURIComponent searchCity) as [e|enc]; settle; [finishing|].
  apply Closes_Await; [exact I|]. intros [e|r]; settle; [finishing|].
  destruct (negb (ok r));
    [destruct (status r =? 404); [|destruct (status r =? 401)]
    |destruct (json r)]; settle; finishing.
Qed.

Lemma fetchWeatherByLocation_closes (env : Env) :
  navigator_geolocation env = true ->
  exists body,
    fetchWeatherByLocation env =
      (SetLoading true ;; SetError None ;; SetInsight None ;; body)
    /\ Closes (SetLoading false) lookupResult lookupCall body.
Proof.
  intros Hgeo. unfold fetchWeatherByLocation. rewrite apiKey_truthy, Hgeo.
  cbn [negb]. eexists. split; [reflexivity|].
  apply Closes_Await; [exact I|]. intros [position|].
  - unfold onPosition, getWeatherByCoords. rewrite apiKey_truthy. settle.
    apply Closes_Await; [exact I|]. intros [e|r]; settle; [finishing|].
    destruct (negb (ok r));
      [destruct (status r =? 401)|destruct (json r) as [e|data]];
      settle; try solve [finishing].
    apply Closes_now. apply Finishing_Do; [exact I|].
    destruct (truthy (name data)); settle; finish_steps.
  - unfold onPositionError. settle. finishing.
Qed.

Lemma handleGetInsight_closes (env : Env) (st : UIState) (wd : WeatherData) :
  weather st = Some wd ->
  exists body,
    handleGetInsight env st = (SetAiLoading true ;; body)
    /\ Closes (SetAiLoading false) insightResult aiCall body.
Proof.
  intros Hw. unfold handleGetInsight. rewrite Hw.
  eexists. split; [reflexivity|].
  unfold generateWeatherInsight.
  destruct (ai (API_KEY env)) as [client|]; settle; [|finishing].
  destruct (firstDescription wd) as [e|desc]; settle; [finishing|].
  apply Closes_Await; [exact I|]. intros [e|response]; settle; [finishing|].
  destruct (textOf response) as [t|]; settle; [|finishing].
  destruct (JSON_parse t) as [e|parsed]; settle; finishing.
Qed.

Lemma resume_closes_lookup (t : Task) (a : Answer) (p : Prog unit) :
  taskCloses t -> isLookupTask t = true -> resume t a = Some p ->
  Closes (SetLoading false) lookupResult lookupCall p.
Proof.
  destruct t as [X c k]. destruct c; cbn; intros Hok Hkind Hres;
    try discriminate; destruct a; try discriminate;
    injection Hres as <-; apply Hok.
Qed.

Lemma resume_closes_insight (t : Task) (a : Answer) (p : Prog unit) :
  taskCloses t -> isLookupTask t = false -> resume t a = Some p ->
  Closes (SetAiLoading false) insightResult aiCall p.
Proof.
  destruct t as [X c k]. destruct c; cbn; intros Hok Hkind Hres;
    try discriminate; destruct a; try discriminate;
    injection Hres as <-; apply Hok.
Qed.

(** A change of the component state that keeps both flags and stores no
    error out of place keeps the invariant. *)
Lemma Tracked_ui (s : System) (m : Machine) :
  Tracked s ->
  loading (ui m) = loading (ui (machine s)) ->
  aiLoading (ui m) = aiLoading (ui (machine s)) ->
  (loading (ui m) = true -> error (ui m) = None) ->
  shownError (error (ui m)) ->
  Tracked {| machine := m; pending := pending s |}.
Proof.
  intros [H1 H2 H3 H4 H5] Hl Ha He Hs.
  constructor; unfold inFlight in *; cbn [machine pending].
  - rewrite Hl. exact H1.
  - rewrite Ha. exact H2.
  - exact He.
  - exact Hs.
  - exact H5.
Qed.

Lemma Tracked_initial : Tracked initialSystem.
Proof.
  constructor; cbn; try reflexivity; try discriminate;
    solve [exact I | constructor].
Qed.

Lemma step_tracked (env : Env) (ev : Event) (s s' : System) :
  Tracked s -> step env ev s = Some s' -> Tracked s'.
Proof.
  intros Ht Hstep. destruct ev as [value| | | |i a]; cbn [step] in Hstep.
  - (* typing into the city field *)
    injection Hstep as <-.
    apply Tracked_ui;
      [assumption|reflexivity|reflexivity
      |apply (no_error_while_loading s Ht)|apply (errors_shown s Ht)].
  - (* submitting the search form *)
    destruct (searchEnabled (ui (machine s))) eqn:Hen; [|discriminate].
    injection Hstep as <-.
    unfold searchEnabled in Hen. apply negb_true_iff in Hen.
    apply orb_false_elim in Hen as [Hload _].
    unfold handleSearch. rewrite launch_Do.
    destruct (truthy (trim (city (ui (machine s))))).
    + destruct (fetchWeather_closes env (city (ui (machine s))))
        as (body & -> & Hbody).
      rewrite !launch_Do.
      apply tracked_lookup_launch;
        [exact Hbody|reflexivity|reflexivity| |
        |apply (tasks_close s Ht)].
      * pose proof (loading_tracks s Ht) as H. unfold inFlight in H.
        rewrite Hload in H. exact H.
      * apply (aiLoading_tracks s Ht).
    + apply Tracked_ui;
        [assumption|reflexivity|reflexivity
        |apply (no_error_while_loading s Ht)|apply (errors_shown s Ht)].
  - (* asking for the current location *)
    destruct (locationEnabled (ui (machine s))) eqn:Hen; [|discriminate].
    injection Hstep as <-.
    unfold locationEnabled in Hen. apply negb_true_iff in Hen.
    destruct (navigator_geolocation env) eqn:Hgeo.
    + destruct (fetchWeatherByLocation_closes env Hgeo) as (body & -> & Hbody).
      rewrite !launch_Do.
      apply tracked_lookup_launch;
        [exact Hbody|reflexivity|reflexivity| |
        |apply (tasks_close s Ht)].
      * pose proof (loading_tracks s Ht) as H. unfold inFlight in H.
        rewrite Hen in H. exact H.
      * apply (aiLoading_tracks s Ht).
    + unfold fetchWeatherByLocation. rewrite apiKey_truthy, Hgeo.
      cbn [negb].
      apply Tracked_ui; [assumption|reflexivity|reflexivity| |reflexivity].
      cbn. rewrite Hen. discriminate.
  - (* asking for an insight *)
    destruct (insightEnabled (ui (machine s))) eqn:Hen; [|discriminate].
    injection Hstep as <-.
    unfold insightEnabled in Hen.
    apply andb_true_iff in Hen as [Hen Hflag].
    apply negb_true_iff in Hflag.
    destruct (weather (ui (machine s))) as [wd|] eqn:Hw.
    + destruct (handleGetInsight_closes env (ui (machine s)) wd Hw)
        as (body & -> & Hbody).
      rewrite launch_Do.
      apply tracked_insight_launch;
        [exact Hbody|reflexivity| | | | |apply (tasks_close s Ht)].
      * pose proof (aiLoading_tracks s Ht) as H. unfold inFlight in H.
        rewrite Hflag in H. exact H.
      * apply (loading_tracks s Ht).
      * apply (no_error_while_loading s Ht).
      * apply (errors_shown s Ht).
    + unfold handleGetInsight. rewrite Hw.
      apply Tracked_ui;
        [assumption|reflexivity|reflexivity
        |apply (no_error_while_loading s Ht)|apply (errors_shown s Ht)].
  - (* an answer arrives *)
    destruct (nth_error (pending s) i) as [t|] eqn:Hnth; [|discriminate].
    destruct (resume t a) as [p|] eqn:Hres; [|discriminate].
    injection Hstep as <-.
    assert (Hclose : taskCloses t).
    { apply (proj1 (Forall_forall _ _) (tasks_close s Ht)).
      eapply nth_error_In. exact Hnth. }
    pose proof (filter_remove_nth isLookupTask _ _ _ Hnth) as Hlook.
    pose proof (filter_remove_nth isInsightTask _ _ _ Hnth) as Hins.
    pose proof (loading_tracks s Ht) as Hl. unfold inFlight in Hl.
    pose proof (aiLoading_tracks s Ht) as Ha. unfold inFlight in Ha.
    unfold isInsightTask in Hins at 2.
    destruct (isLookupTask t) eqn:Hkind; cbn [negb flagCount] in Hlook, Hins.
    + destruct (loading (ui (machine s))) eqn:Hload;
        cbn [flagCount] in Hl; [|lia].
      apply tracked_lookup_launch.
      * eapply resume_closes_lookup; eassumption.
      * exact Hload.
      * apply (no_error_while_loading s Ht Hload).
      * lia.
      * rewrite <- Ha. lia.
      * apply Forall_remove_nth. apply (tasks_close s Ht).
    + destruct (aiLoading (ui (machine s))) eqn:Hflag;
        cbn [flagCount] in Ha; [|lia].
      apply tracked_insight_launch.
      * eapply resume_closes_insight; eassumption.
      * exact Hflag.
      * lia.
      * rewrite <- Hl. lia.
      * apply (no_error_while_loading s Ht).
      * apply (errors_shown s Ht).
      * apply Forall_remove_nth. apply (tasks_close s Ht).
Qed.

Lemma run_tracked (env : Env) (evs : list Event) :
  forall s s', Tracked s -> run env evs s = Some s' -> Tracked s'.
Proof.
  induction evs as [|ev evs IH]; intros s s' Ht Hrun; cbn [run] in Hrun.
  - injection Hrun as <-. exact Ht.
  - destruct (step env ev s) as [s1|] eqn:Hstep; [|discriminate].
    eapply IH; [|exact Hrun]. eapply step_tracked; eassumption.
Qed.

(** X12. In every state the dashboard can reach, at most one weather lookup
    is in flight, and the loading flag is set exactly while one is: the
    two lookup controls are disabled for as long as a lookup runs, so a
    late answer can never overwrite the result of a later lookup. *)
Theorem one_lookup_at_a_time (env : Env) (evs : list Event) (s : System) :
  run env evs initialSystem = Some s ->
  inFlight isLookupTask s = flagCount (loading (ui (machine s)))
  /\ (inFlight isLookupTask s <= 1)%nat
  /\ (searchEnabled (ui (machine s)) = true
      \/ locationEnabled (ui (machine s)) = true ->
      lookupInFlight s = false).
Proof.
  intros Hrun.
  pose proof (run_tracked env evs _ _ Tracked_initial Hrun) as Ht.
  pose proof (loading_tracks s Ht) as H.
  split; [exact H|]. split.
  - rewrite H. destruct (loading (ui (machine s))); cbn; lia.
  - intros Hen.
    assert (Hload : loading (ui (machine s)) = false).
    { destruct Hen as [Hen|Hen].
      - unfold searchEnabled in Hen. apply negb_true_iff in Hen.
        apply orb_false_elim in Hen as [Hen _]. exact Hen.
      - unfold locationEnabled in Hen. apply negb_true_iff in Hen. exact Hen. }
    rewrite Hload in H. unfold inFlight in H. unfold lookupInFlight.
    destruct (existsb isLookupTask (pending s)) eqn:E; [|reflexivity].
    apply existsb_exists in E as (t & Hin & Hkind).
    assert (Hfil : In t (filter isLookupTask (pending s)))
      by (apply filter_In; split; assumption).
    destruct (filter isLookupTask (pending s)); [contradiction|discriminate].
Qed.

(** X13. In every state the dashboard can reach, at most one insight
    request is in flight, and the AI flag is set exactly while one is. *)
Theorem one_insight_request_at_a_time (env : Env) (evs : list Event)
    (s : System) :
  run env evs initialSystem = Some s ->
  inFlight isInsightTask s = flagCount (aiLoading (ui (machine s)))
  /\ (inFlight isInsightTask s <= 1)%nat.
Proof.
  intros Hrun.
  pose proof (run_tracked env evs _ _ Tracked_initial Hrun) as Ht.
  pose proof (aiLoading_tracks s Ht) as H.
  split; [exact H|].
  rewrite H. destruct (aiLoading (ui (machine s))); cbn; lia.
Qed.

(** X14. In every state the dashboard can reach, no error is stored while a
    lookup is loading, and a stored error is never the empty string, so the
    error box shows whenever an error is stored. *)
Theorem errors_visible_and_not_while_loading (env : Env) (evs : list Event)
    (s : System) :
  run env evs initialSystem = Some s ->
  (loading (ui (machine s)) = true -> error (ui (machine s)) = None)
  /\ (forall e, error (ui (machine s)) = Some e -> truthy e = true).
Proof.
  intros Hrun.
  pose proof (run_tracked env evs _ _ Tracked_initial Hrun) as Ht.
  split; [apply (no_error_while_loading s Ht)|].
  intros e He. pose proof (errors_shown s Ht) as H.
  rewrite He in H. exact H.
Qed.

(** ** The stored key *)

Lemma trimStart_fixed (s : jsstring) (c : code_unit) (rest : jsstring) :
  s = c :: rest -> isWhiteSpace c = false -> trimStart s = s.
Proof. intros -> H. cbn [trimStart]. rewrite H. reflexivity. Qed.

Lemma trimStart_idempotent (s : jsstring) :
  trimStart (trimStart s) = trimStart s.
Proof.
  destruct (trimStart s) as [|c rest] eqn:E; [reflexivity|].
  apply (trimStart_fixed _ c rest eq_refl).
  apply (trimStart_head s c rest E).
Qed.

Lemma trimStart_snoc (s : jsstring) (c : code_unit) :
  isWhiteSpace c = false -> trimStart (s ++ [c]) = trimStart s ++ [c].
Proof.
  intros Hc. induction s as [|x s IH]; cbn [app trimStart].
  - rewrite Hc. reflexivity.
  - destruct (isWhiteSpace x); [exact IH|reflexivity].
Qed.

Lemma trimEnd_cons (c : code_unit) (s : jsstring) :
  isWhiteSpace c = false -> trimEnd (c :: s) = c :: trimEnd s.
Proof.
  intros Hc. unfold trimEnd. cbn [rev].
  rewrite trimStart_snoc by assumption. rewrite rev_app_distr. reflexivity.
Qed.

Lemma trimEnd_idempotent (s : jsstring) : trimEnd (trimEnd s) = trimEnd s.
Proof.
  unfold trimEnd. rewrite rev_involutive, trimStart_idempotent. reflexivity.
Qed.

(** Trimming twice is trimming once. *)
Lemma trim_idempotent (s : jsstring) : trim (trim s) = trim s.
Proof.
  unfold trim. destruct (trimStart s) as [|c rest] eqn:E; [reflexivity|].
  pose proof (trimStart_head s c rest E) as Hc.
  rewrite trimEnd_cons by assumption.
  rewrite (trimStart_fixed _ c (trimEnd rest) eq_refl Hc).
  rewrite trimEnd_cons by assumption. rewrite trimEnd_idempotent.
  reflexivity.
Qed.

Lemma sameString_refl (a : jsstring) : KeySetup.sameString a a = true.
Proof.
  induction a as [|x a IH]; cbn; [reflexivity|].
  rewrite N.eqb_refl. exact IH.
Qed.

Lemma sameString_eq (a b : jsstring) : KeySetup.sameString a b = true -> a = b.
Proof.
  revert b. induction a as [|x a IH]; intros [|y b]; cbn; try discriminate;
    [reflexivity|].
  intros H. apply andb_true_iff in H as [Hx Hab].
  apply N.eqb_eq in Hx. subst y. rewrite (IH b Hab). reflexivity.
Qed.

Lemma getItem_setItem (k v : jsstring) (st : KeySetup.Storage) :
  KeySetup.getItem k (KeySetup.setItem k v st) = Some v.
Proof.
  induction st as [|[k' v'] st IH]; cbn [KeySetup.setItem KeySetup.getItem].
  - rewrite sameString_refl. reflexivity.
  - destruct (KeySetup.sameString k k') eqn:E; cbn [KeySetup.getItem].
    + rewrite sameString_refl. reflexivity.
    + rewrite E. exact IH.
Qed.

Lemma getItem_setItem_other (k' k v : jsstring) (st : KeySetup.Storage) :
  KeySetup.sameString k' k = false ->
  KeySetup.getItem k' (KeySetup.setItem k v st) = KeySetup.getItem k' st.
Proof.
  intros Hk.
  induction st as [|[k2 v2] st IH]; cbn [KeySetup.setItem KeySetup.getItem].
  - rewrite Hk. reflexivity.
  - destruct (KeySetup.sameString k k2) eqn:E; cbn [KeySetup.getItem].
    + apply sameString_eq in E. subst k2. rewrite Hk. reflexivity.
    + rewrite IH. reflexivity.
Qed.

Lemma getItem_removeItem (k : jsstring) (st : KeySetup.Storage) :
  KeySetup.getItem k (KeySetup.removeItem k st) = None.
Proof.
  induction st as [|[k' v'] st IH]; cbn [KeySetup.removeItem KeySetup.getItem];
    [reflexivity|].
  destruct (KeySetup.sameString k k') eqn:E; cbn [KeySetup.getItem];
    [exact IH|]. rewrite E. exact IH.
Qed.

Lemma getItem_removeItem_other (k' k : jsstring) (st : KeySetup.Storage) :
  KeySetup.sameString k' k = false ->
  KeySetup.getItem k' (KeySetup.removeItem k st) = KeySetup.getItem k' st.
Proof.
  intros Hk.
  induction st as [|[k2 v2] st IH]; cbn [KeySetup.removeItem KeySetup.getItem];
    [reflexivity|].
  destruct (KeySetup.sameString k k2) eqn:E; cbn [KeySetup.getItem].
  - apply sameString_eq in E. subst k2. rewrite Hk. exact IH.
  - rewrite IH. reflexivity.
Qed.

(** X15. Saving a key and mounting the component again gives the key back.
    A blank entry saves nothing.  Otherwise the trimmed entry becomes the
    key and is stored under 'skygen_ow_key' (other stored items are left
    alone); it is not empty and trimming it again changes nothing; without
    a key in the environment a fresh mount reads it back and skips the
    setup screen, while a key in the environment always wins over the
    stored one. *)
Theorem saved_key_read_back (s : KeySetup.State) (st : KeySetup.Storage) :
  (forallb isWhiteSpace (KeySetup.tempApiKey s) = true ->
   KeySetup.saveApiKey s st = (s, st))
  /\ (forallb isWhiteSpace (KeySetup.tempApiKey s) = false ->
      KeySetup.apiKey (fst (KeySetup.saveApiKey s st)) =
        trim (KeySetup.tempApiKey s)
      /\ KeySetup.app (fst (KeySetup.saveApiKey s st)) = KeySetup.app s
      /\ KeySetup.getItem KeySetup.storageKey (snd (KeySetup.saveApiKey s st)) =
           Some (trim (KeySetup.tempApiKey s))
      /\ (forall k,
            KeySetup.sameString k KeySetup.storageKey = false ->
            KeySetup.getItem k (snd (KeySetup.saveApiKey s st)) =
            KeySetup.getItem k st)
      /\ truthy (trim (KeySetup.tempApiKey s)) = true
      /\ trim (trim (KeySetup.tempApiKey s)) = trim (KeySetup.tempApiKey s)
      /\ (forall envKey,
            envKey = None \/ envKey = Some [] ->
            KeySetup.apiKey
              (KeySetup.mount envKey (snd (KeySetup.saveApiKey s st))) =
              trim (KeySetup.tempApiKey s)
            /\ KeySetup.setupScreen
                 (KeySetup.mount envKey (snd (KeySetup.saveApiKey s st))) =
                 false)
      /\ (forall k,
            truthy k = true ->
            KeySetup.apiKey
              (KeySetup.mount (Some k) (snd (KeySetup.saveApiKey s st))) = k)).
Proof.
  unfold KeySetup.saveApiKey. rewrite truthy_trim. split.
  - intros ->. reflexivity.
  - intros Hblank. rewrite Hblank. cbn [negb fst snd KeySetup.apiKey KeySetup.app].
    assert (Htruthy : truthy (trim (KeySetup.tempApiKey s)) = true)
      by (rewrite truthy_trim, Hblank; reflexivity).
    split; [reflexivity|]. split; [reflexivity|].
    split; [apply getItem_setItem|].
    split; [intros k Hk; apply getItem_setItem_other; exact Hk|].
    split; [reflexivity|]. split; [apply trim_idempotent|]. split.
    + intros envKey HenvKey.
      unfold KeySetup.setupScreen, KeySetup.mount, KeySetup.initialKey.
      cbn [KeySetup.apiKey]. rewrite getItem_setItem.
      assert (Hkey : or_default
                       (KeySetup.orElse envKey
                          (Some (trim (KeySetup.tempApiKey s)))) [] =
                     trim (KeySetup.tempApiKey s)).
      { destruct HenvKey as [-> | ->]; cbn [KeySetup.orElse truthy];
          unfold or_default; rewrite Htruthy; reflexivity. }
      rewrite Hkey, Htruthy. split; reflexivity.
    + intros k Hk. unfold KeySetup.mount, KeySetup.initialKey.
      cbn [KeySetup.apiKey KeySetup.orElse or_default]. rewrite Hk.
      cbn [or_default]. rewrite Hk. reflexivity.
Qed.

(** X16. Clearing the key empties it and removes the stored item (other
    stored items are left alone), resets city, weather and insight, and
    leaves error and the loading flags as they were; the setup screen is
    shown, and a fresh mount gets a key from the environment only. *)
Theorem cleared_key_is_gone (s : KeySetup.State) (st : KeySetup.Storage) :
  KeySetup.apiKey (fst (KeySetup.clearApiKey s st)) = []
  /\ KeySetup.setupScreen (fst (KeySetup.clearApiKey s st)) = true
  /\ KeySetup.app (fst (KeySetup.clearApiKey s st)) =
       {| city := [];
          weather := None;
          insight := None;
          loading := loading (KeySetup.app s);
          aiLoading := aiLoading (KeySetup.app s);
          error := error (KeySetup.app s) |}
  /\ KeySetup.getItem KeySetup.storageKey (snd (KeySetup.clearApiKey s st)) =
       None
  /\ (forall k,
        KeySetup.sameString k KeySetup.storageKey = false ->
        KeySetup.getItem k (snd (KeySetup.clearApiKey s st)) =
        KeySetup.getItem k st)
  /\ (forall envKey,
        KeySetup.apiKey
          (KeySetup.mount envKey (snd (KeySetup.clearApiKey s st))) =
        or_default envKey []).
Proof.
  unfold KeySetup.clearApiKey. cbn [fst snd KeySetup.apiKey KeySetup.app].
  split; [reflexivity|]. split; [reflexivity|]. split; [reflexivity|].
  split; [apply getItem_removeItem|].
  split; [intros k Hk; apply getItem_removeItem_other; exact Hk|].
  intros envKey. unfold KeySetup.mount, KeySetup.initialKey.
  cbn [KeySetup.apiKey]. rewrite getItem_removeItem.
  destruct envKey as [k|]; cbn [KeySetup.orElse or_default]; [|reflexivity].
  destruct (truthy k) eqn:E; cbn [or_default]; rewrite ?E; reflexivity.
Qed.

End Properties.








(** *** The platform functions on examples *)

Example encode_space :
  encodeURIComponent (lit "New York") = inr (lit "New%20York").
Proof. reflexivity. Qed.

Example encode_e_acute :
  encodeURIComponent [233] = inr (lit "%C3%A9").
Proof. reflexivity. Qed.

Example encode_lone_surrogate :
  encodeURIComponent [55357] = inl URIError.
Proof. reflexivity. Qed.

Example trim_padded : trim (lit "  Oslo ") = lit "Oslo".
Proof. reflexivity. Qed.

Example cityUrl_london :
  cityUrl (lit "London") (lit "k") =
  lit "https://api.openweathermap.org/data/2.5/weather?q=London&units=metric&appid=k".
Proof. reflexivity. Qed.

Example coordsUrl_greenwich :
  @coordsUrl Sample.runtime 51%float 0%float (lit "k") =
  lit "https://api.openweathermap.org/data/2.5/weather?lat=51&lon=0&units=metric&appid=k".
Proof. reflexivity. Qed.

(** The London scenario: the snapshot is stored as the provider sent it and
    the insight can then be requested and is stored. *)
Example london_scenario :
  Sample.finalState Sample.quietSession =
  Some {| city := lit "London";
          weather := Some Sample.london;
          insight := Some Sample.rainInsight;
          loading := false;
          aiLoading := false;
          error := None |}.
Proof. reflexivity. Qed.

(** The InvalidCity123 scenario: a 404 on the city path shows the NotFound
    message and clears the weather. *)
Example failed_search_clears_weather :
  Sample.finalState Sample.failedSearchSession =
  Some {| city := lit "InvalidCity123";
          weather := None;
          insight := None;
          loading := false;
          aiLoading := false;
          error := Some (lit "City not found. Please try again.") |}.
Proof. reflexivity. Qed.

(** *** The claims on concrete inputs *)

Lemma status_mapping_path_dependent_at_404_witness :
  snd (exec (Sample.world Sample.notFound Sample.completion)
         (getWeatherByCity (lit "InvalidCity123") Sample.key) initialMachine)
    = inl NotFound
  /\ snd (exec (Sample.world Sample.notFound Sample.completion)
            (Sample.getWeatherByCoords 51%float 0%float Sample.key)
            initialMachine)
       = inl (ProviderError (lit "Not Found"))
  /\ snd (exec (Sample.world Sample.serverError Sample.completion)
            (getWeatherByCity (lit "London") Sample.key) initialMachine)
       = inl (ProviderError (lit "Internal Server Error"))
  /\ snd (exec (Sample.world Sample.serverError Sample.completion)
            (Sample.getWeatherByCoords 51%float 0%float Sample.key)
            initialMachine)
       = inl (ProviderError (lit "Internal Server Error")).
Proof.
  destruct (@status_mapping_path_dependent_at_404 Sample.runtime
              (Sample.world Sample.notFound Sample.completion) Sample.key
              eq_refl) as (Hcity & Hcoords & _).
  destruct (@status_mapping_path_dependent_at_404 Sample.runtime
              (Sample.world Sample.serverError Sample.completion) Sample.key
              eq_refl) as (Hcity' & Hcoords' & _).
  destruct (Hcity (lit "InvalidCity123") (lit "InvalidCity123")
              Sample.notFound initialMachine eq_refl eq_refl) as [H1 _].
  destruct (Hcoords 51%float 0%float Sample.notFound initialMachine eq_refl)
    as [H2 _].
  destruct (Hcity' (lit "London") (lit "London") Sample.serverError
              initialMachine eq_refl eq_refl) as [_ H3].
  destruct (Hcoords' 51%float 0%float Sample.serverError initialMachine
              eq_refl) as [_ H4].
  split; [exact (H1 eq_refl)|].
  split; [exact (H2 eq_refl)|].
  split; [apply H3|apply H4]; try reflexivity; cbn; discriminate.
Defined.

Lemma unauthorized_is_InvalidCredentials_witness :
  snd (exec (Sample.world Sample.unauthorized Sample.completion)
         (getWeatherByCity (lit "London") Sample.key) initialMachine)
    = inl InvalidCredentials
  /\ snd (exec (Sample.world Sample.unauthorized Sample.completion)
            (Sample.getWeatherByCoords 51%float 0%float Sample.key)
            initialMachine)
       = inl InvalidCredentials.
Proof.
  destruct (@unauthorized_is_InvalidCredentials Sample.runtime
              (Sample.world Sample.unauthorized Sample.completion) Sample.key
              eq_refl) as (Hcity & Hcoords & _).
  split.
  - exact (Hcity (lit "London") (lit "London") Sample.unauthorized
             initialMachine eq_refl eq_refl eq_refl).
  - exact (Hcoords 51%float 0%float Sample.unauthorized initialMachine
             eq_refl eq_refl).
Defined.

(** C3 fails as stated: with an empty completion the caller does not receive
    EmptyResponse; it receives exactly what it receives when the call is
    rejected. *)
Lemma empty_body_not_distinguished :
  snd (exec (Sample.world Sample.found Sample.emptyCompletion)
         (Sample.generateWeatherInsight (Some Sample.client) Sample.london)
         initialMachine)
    <> inl EmptyResponse
  /\ snd (exec (Sample.world Sample.found Sample.emptyCompletion)
            (Sample.generateWeatherInsight (Some Sample.client) Sample.london)
            initialMachine)
     = snd (exec (Sample.world Sample.found (inl Sample.offline))
              (Sample.generateWeatherInsight (Some Sample.client) Sample.london)
              initialMachine).
Proof.
  split; [|reflexivity]. cbn. discriminate.
Qed.

Lemma empty_body_surfaces_as_GenerationFailed_witness :
  exec (Sample.world Sample.found Sample.emptyCompletion)
    (Sample.generateWeatherInsight (Some Sample.client) Sample.london)
    initialMachine
  = (logged EmptyResponse
       (issue (@insightCall Sample.runtime Sample.client Sample.london
                 (lit "light rain")) initialMachine),
     inl GenerationFailed)
  /\ snd (exec (Sample.world Sample.found (inl Sample.offline))
            (Sample.generateWeatherInsight (Some Sample.client) Sample.london)
            initialMachine)
     = snd (exec (Sample.world Sample.found Sample.emptyCompletion)
              (Sample.generateWeatherInsight (Some Sample.client)
                 Sample.london)
              initialMachine).
Proof.
  destruct (@empty_body_surfaces_as_GenerationFailed
              Sample.runtime
              (Sample.world Sample.found Sample.emptyCompletion)
              Sample.client Sample.london (lit "light rain") initialMachine
              eq_refl
              (ex_intro _ {| text := None |} (conj eq_refl eq_refl)))
    as [H1 H2].
  split; [exact H1|].
  apply (H2 (Sample.world Sample.found (inl Sample.offline)) Sample.offline
            initialMachine).
  left. reflexivity.
Defined.

Lemma call_failure_is_GenerationFailed_witness :
  exec (Sample.world Sample.found (inl Sample.offline))
    (Sample.generateWeatherInsight (Some Sample.client) Sample.london)
    initialMachine
  = (logged Sample.offline
       (issue (@insightCall Sample.runtime Sample.client Sample.london
                 (lit "light rain")) initialMachine),
     inl GenerationFailed)
  /\ snd (exec (Sample.world Sample.found Sample.garbledCompletion)
            (Sample.generateWeatherInsight (Some Sample.client) Sample.london)
            initialMachine)
     = inl GenerationFailed.
Proof.
  split.
  - apply (@call_failure_is_GenerationFailed
             Sample.runtime
             (Sample.world Sample.found (inl Sample.offline))
             Sample.client Sample.london (lit "light rain") Sample.offline
             initialMachine eq_refl).
    left. reflexivity.
  - destruct (@call_failure_is_GenerationFailed
                Sample.runtime
                (Sample.world Sample.found Sample.garbledCompletion)
                Sample.client Sample.london (lit "light rain")
                (mkError (lit "Unexpected token in JSON"))
                initialMachine eq_refl) as [H _].
    + right. exists {| text := Some (lit "{oops") |}, (lit "{oops").
      repeat split.
    + unfold Sample.generateWeatherInsight. rewrite H. reflexivity.
Defined.

Lemma configuration_error_raw_other_failures_uniform_witness :
  exec (Sample.world Sample.found Sample.completion)
    (Sample.generateWeatherInsight None Sample.london) initialMachine
  = (initialMachine, inl MissingAiCredentials)
  /\ match snd (exec (Sample.world Sample.found Sample.emptyCompletion)
                  (Sample.generateWeatherInsight (Some Sample.client)
                     Sample.london)
                  initialMachine) with
     | inl e => e = GenerationFailed
     | inr _ => False
     end.
Proof.
  split.
  - apply (@configuration_error_raw_other_failures_uniform
             Sample.runtime
             (Sample.world Sample.found Sample.completion) Sample.london
             initialMachine).
  - destruct (@configuration_error_raw_other_failures_uniform
                Sample.runtime
                (Sample.world Sample.found Sample.emptyCompletion)
                Sample.london initialMachine) as [_ H].
    exact (H Sample.client (lit "light rain") GenerationFailed eq_refl
             eq_refl).
Defined.

Lemma blank_city_submit_is_noop_witness :
  exec (Sample.world Sample.found Sample.completion)
    (handleSearch Sample.env (ui (Sample.typed (lit "   "))))
    (Sample.typed (lit "   "))
  = (Sample.typed (lit "   "), inr tt)
  /\ exec (Sample.world Sample.found Sample.completion)
       (handleSearch Sample.env (ui initialMachine)) initialMachine
     = (initialMachine, inr tt).
Proof.
  split.
  - apply (blank_city_submit_is_noop Sample.env
             (Sample.world Sample.found Sample.completion)
             (Sample.typed (lit "   ")) [] eq_refl).
  - apply (blank_city_submit_is_noop Sample.env
             (Sample.world Sample.found Sample.completion)
             initialMachine [] eq_refl).
Defined.

Lemma insight_without_weather_is_noop_witness :
  exec (Sample.world Sample.found Sample.completion)
    (@handleGetInsight Sample.runtime Sample.env
       (ui initialMachine))
    initialMachine
  = (initialMachine, inr tt).
Proof.
  apply (@insight_without_weather_is_noop Sample.runtime
           Sample.env (Sample.world Sample.found Sample.completion)
           initialMachine [] eq_refl).
Defined.

Lemma location_lookup_sets_city_search_does_not_witness :
  city (ui (fst (exec (Sample.world Sample.found Sample.completion)
                   (@fetchWeatherByLocation Sample.runtime Sample.env)
                   initialMachine)))
  = lit "London"
  /\ city (ui (fst (exec (Sample.world Sample.found Sample.completion)
                      (fetchWeather Sample.env (lit "Paris"))
                      (Sample.typed (lit "Paris")))))
     = lit "Paris".
Proof.
  destruct (@location_lookup_sets_city_search_does_not Sample.runtime
              Sample.env (Sample.world Sample.found Sample.completion)
              Sample.greenwich Sample.found Sample.london initialMachine
              eq_refl eq_refl eq_refl eq_refl eq_refl eq_refl)
    as ((H1 & _) & H2 & _).
  split; [exact H1|].
  exact (H2 (Sample.world Sample.found Sample.completion) (lit "Paris")
            (Sample.typed (lit "Paris"))).
Defined.


(** C4 fails as stated: when a second search is submitted while an insight
    request is in flight and that search fails, the late insight is stored
    although no weather snapshot is held any more. Every event of the run
    goes through a control the render offers. *)
Lemma overlap_stores_insight_without_weather :
  exists s,
    @reachable Sample.runtime Sample.env s
    /\ insight (ui (machine s)) = Some Sample.rainInsight
    /\ weather (ui (machine s)) = None.
Proof.
  exists (Sample.lastSystem Sample.overlappingSession). split.
  - exists Sample.overlappingSession. vm_compute. reflexivity.
  - split; vm_compute; reflexivity.
Qed.

(** The other overlap has the same effect: an insight requested while a
    search is in flight, answered before that search fails. *)
Example insight_during_lookup_outlives_weather :
  Sample.finalState Sample.insightDuringLookupSession =
  Some {| city := lit "InvalidCity123";
          weather := None;
          insight := Some Sample.rainInsight;
          loading := false;
          aiLoading := false;
          error := Some (lit "City not found. Please try again.") |}.
Proof. vm_compute. reflexivity. Qed.

Lemma insight_requires_weather_when_separated_witness :
  Sample.run_separated Sample.quietSession initialSystem
    = Some (Sample.lastSystem Sample.quietSession)
  /\ isSome (insight (ui (machine (Sample.lastSystem Sample.quietSession))))
     = true
  /\ isSome (weather (ui (machine (Sample.lastSystem Sample.quietSession))))
     = true.
Proof.
  assert (E : Sample.run_separated Sample.quietSession initialSystem
              = Some (Sample.lastSystem Sample.quietSession))
    by (vm_compute; reflexivity).
  assert (Hi : isSome (insight (ui (machine
                 (Sample.lastSystem Sample.quietSession)))) = true)
    by (vm_compute; reflexivity).
  destruct (@insight_requires_weather_when_separated
              Sample.runtime Sample.env
              Sample.quietSession (Sample.lastSystem Sample.quietSession) E)
    as [[_ H] _].
  split; [exact E|]. split; [exact Hi|exact (H Hi)].
Defined.

(** C2 at the failing input: London is displayed, then a lookup by location
    fails with status 500.  The message is shown, and the London snapshot
    is still displayed. *)
Theorem failed_location_lookup_keeps_weather :
  Sample.finalState Sample.failedLocationSession =
  Some {| city := lit "London";
          weather := Some Sample.london;
          insight := None;
          loading := false;
          aiLoading := false;
          error := Some (lit "Weather API Error: Internal Server Error") |}.
Proof. vm_compute. reflexivity. Qed.

(** *** The further properties on concrete inputs *)

Lemma weather_client_requests_witness :
  exec (Sample.world Sample.found Sample.completion)
    (getWeatherByCity (lit "London") []) initialMachine
  = (initialMachine, inl OpenWeatherKeyMissing)
  /\ requests (fst (exec (Sample.world Sample.found Sample.completion)
                      (getWeatherByCity (lit "London") Sample.key)
                      initialMachine))
     = [Requested (Fetch (cityUrl (lit "London") Sample.key))].
Proof.
  destruct (@weather_client_requests Sample.runtime
              (Sample.world Sample.found Sample.completion)
              (lit "London") [] 51%float 0%float initialMachine)
    as ((Hui & Hco & Hrq) & _ & Hmissing).
  destruct (Hmissing eq_refl) as [Hres _].
  destruct (@weather_client_requests Sample.runtime
              (Sample.world Sample.found Sample.completion)
              (lit "London") Sample.key 51%float 0%float initialMachine)
    as ((_ & _ & Hrq') & _).
  split; [reflexivity|exact Hrq'].
Defined.

Lemma weather_client_passes_through_witness :
  snd (exec Sample.unplugged (getWeatherByCity (lit "London") Sample.key)
         initialMachine)
    = inl Sample.offline
  /\ snd (exec (Sample.world Sample.found Sample.completion)
            (Sample.getWeatherByCoords 51%float 0%float Sample.key)
            initialMachine)
     = inr Sample.london.
Proof.
  destruct (@weather_client_passes_through Sample.runtime Sample.unplugged
              Sample.key eq_refl) as [Hcity _].
  destruct (@weather_client_passes_through Sample.runtime
              (Sample.world Sample.found Sample.completion)
              Sample.key eq_refl) as [_ Hcoords].
  destruct (Hcity (lit "London") (lit "London") initialMachine eq_refl)
    as [Hrej _].
  destruct (Hcoords 51%float 0%float initialMachine) as [_ Hok].
  split.
  - exact (Hrej Sample.offline eq_refl).
  - exact (Hok Sample.found eq_refl eq_refl).
Defined.

Lemma sixteenBit_injection : sixteenBit (lit "a&b=c #1").
Proof. repeat constructor. Defined.

Lemma encoded_city_has_no_delimiters_witness :
  encodeURIComponent (lit "a&b=c #1") = inr (lit "a%26b%3Dc%20%231")
  /\ forallb urlSafe (lit "a%26b%3Dc%20%231") = true
  /\ ~ In 38 (lit "a%26b%3Dc%20%231").
Proof.
  destruct (encoded_city_has_no_delimiters (lit "a&b=c #1")
              (lit "a%26b%3Dc%20%231") sixteenBit_injection eq_refl)
    as [Hsafe Hnone].
  split; [reflexivity|]. split; [exact Hsafe|].
  apply Hnone. cbn. left. reflexivity.
Defined.

Lemma city_lookup_reaches_network_witness :
  requests (fst (exec Sample.unplugged
                   (getWeatherByCity (lit "London") Sample.key)
                   initialMachine))
    = [Requested (Fetch (cityUrl (lit "London") Sample.key))]
  /\ exec Sample.unplugged (getWeatherByCity [55357] Sample.key) initialMachine
     = (initialMachine, inl URIError).
Proof.
  destruct (city_lookup_reaches_network Sample.unplugged (lit "London")
              Sample.key initialMachine eq_refl) as (_ & Hplain & _).
  destruct (city_lookup_reaches_network Sample.unplugged [55357]
              Sample.key initialMachine eq_refl) as (_ & _ & Hlone).
  split.
  - exact (Hplain eq_refl).
  - exact (Hlone URIError eq_refl).
Defined.

Lemma search_enabled_iff_city_not_blank_witness :
  handleSearch Sample.env (ui (Sample.typed (lit " Oslo ")))
  = (PreventDefault ;; fetchWeather Sample.env (lit " Oslo ")).
Proof.
  destruct (search_enabled_iff_city_not_blank Sample.env
              (ui (Sample.typed (lit " Oslo ")))) as [_ H].
  exact (H eq_refl).
Defined.

Lemma location_unavailable_witness :
  ui (fst (exec Sample.nowhere
             (@fetchWeatherByLocation Sample.runtime Sample.bareEnv)
             Sample.showingLondon))
    = {| city := lit "London";
         weather := Some Sample.london;
         insight := None;
         loading := false;
         aiLoading := false;
         error := Some (lit "Geolocation is not supported by your browser") |}
  /\ requests (fst (exec Sample.nowhere
                      (@fetchWeatherByLocation Sample.runtime Sample.env)
                      Sample.showingLondon))
     = [Requested GetCurrentPosition].
Proof.
  destruct (@location_unavailable Sample.runtime Sample.bareEnv Sample.nowhere
              Sample.showingLondon) as [Hnone _].
  destruct (@location_unavailable Sample.runtime Sample.env Sample.nowhere
              Sample.showingLondon) as [_ Hdenied].
  split.
  - rewrite (Hnone eq_refl). reflexivity.
  - rewrite (Hdenied eq_refl eq_refl). reflexivity.
Defined.

Lemma insight_request_outcome_witness :
  ui (fst (exec Sample.unplugged
             (@handleGetInsight Sample.runtime Sample.env
                (ui Sample.showingLondon))
             Sample.showingLondon))
    = ui Sample.showingLondon
  /\ insight (ui (fst (exec (Sample.world Sample.found Sample.completion)
                         (@handleGetInsight Sample.runtime Sample.env
                            (ui Sample.showingLondon))
                         Sample.showingLondon)))
     = Some Sample.rainInsight.
Proof.
  destruct (@insight_request_outcome Sample.runtime Sample.env
              Sample.unplugged Sample.london Sample.showingLondon eq_refl)
    as [Hfail _].
  destruct (@insight_request_outcome Sample.runtime Sample.env
              (Sample.world Sample.found Sample.completion) Sample.london
              Sample.showingLondon eq_refl) as [Hok _].
  split.
  - rewrite Hfail. reflexivity.
  - rewrite Hok. reflexivity.
Defined.

Lemma insight_button_inert_without_key_witness :
  exec Sample.unplugged
    (@handleGetInsight Sample.runtime Sample.noAiEnv (ui Sample.showingLondon))
    Sample.showingLondon
  = ({| ui := ui Sample.showingLondon;
        console := [[LogError MissingAiCredentials]];
        requests := [] |},
     inr tt).
Proof.
  exact (@insight_button_inert_without_key Sample.runtime Sample.noAiEnv
           Sample.unplugged Sample.london Sample.showingLondon
           (or_intror eq_refl) eq_refl eq_refl).
Defined.

Lemma insight_for_empty_conditions_witness :
  exists e,
    exec (Sample.world Sample.found Sample.completion)
      (Sample.generateWeatherInsight (Some Sample.client) Sample.bare)
      initialMachine
    = (initialMachine, inl e)
    /\ e <> GenerationFailed.
Proof.
  exact (@insight_for_empty_conditions Sample.runtime
           (Sample.world Sample.found Sample.completion) Sample.client
           Sample.bare initialMachine eq_refl).
Defined.

Lemma insight_generator_effects_witness :
  requests (fst (exec (Sample.world Sample.found Sample.completion)
                   (Sample.generateWeatherInsight (Some Sample.client)
                      Sample.london)
                   initialMachine))
  = [Requested (@insightCall Sample.runtime Sample.client Sample.london
                  (lit "light rain"))]
  /\ console (fst (exec (Sample.world Sample.found Sample.completion)
                     (Sample.generateWeatherInsight (Some Sample.client)
                        Sample.london)
                     initialMachine))
     = [].
Proof.
  destruct (@insight_generator_effects Sample.runtime
              (Sample.world Sample.found Sample.completion) Sample.client
              Sample.london (lit "light rain") initialMachine eq_refl)
    as (Hrq & Hok & _).
  split; [exact Hrq|].
  destruct (Hok Sample.rainInsight eq_refl) as [Hconsole _]. exact Hconsole.
Defined.

Lemma one_lookup_at_a_time_witness :
  inFlight isLookupTask (Sample.lastSystem Sample.searchingSession) = 1%nat
  /\ loading (ui (machine (Sample.lastSystem Sample.searchingSession))) = true.
Proof.
  assert (E : Sample.run Sample.searchingSession initialSystem
              = Some (Sample.lastSystem Sample.searchingSession))
    by (vm_compute; reflexivity).
  assert (Hload : loading (ui (machine
                    (Sample.lastSystem Sample.searchingSession))) = true)
    by (vm_compute; reflexivity).
  destruct (@one_lookup_at_a_time Sample.runtime Sample.env
              Sample.searchingSession _ E) as (H & _ & _).
  split; [|exact Hload]. rewrite H, Hload. reflexivity.
Defined.

Lemma one_insight_request_at_a_time_witness :
  inFlight isInsightTask (Sample.lastSystem Sample.consultingSession) = 1%nat
  /\ aiLoading (ui (machine (Sample.lastSystem Sample.consultingSession)))
     = true.
Proof.
  assert (E : Sample.run Sample.consultingSession initialSystem
              = Some (Sample.lastSystem Sample.consultingSession))
    by (vm_compute; reflexivity).
  assert (Hflag : aiLoading (ui (machine
                    (Sample.lastSystem Sample.consultingSession))) = true)
    by (vm_compute; reflexivity).
  destruct (@one_insight_request_at_a_time Sample.runtime Sample.env
              Sample.consultingSession _ E) as (H & _).
  split; [|exact Hflag]. rewrite H, Hflag. reflexivity.
Defined.

Lemma errors_visible_and_not_while_loading_witness :
  error (ui (machine (Sample.lastSystem Sample.searchingSession))) = None
  /\ truthy (lit "City not found. Please try again.") = true.
Proof.
  assert (E : Sample.run Sample.searchingSession initialSystem
              = Some (Sample.lastSystem Sample.searchingSession))
    by (vm_compute; reflexivity).
  assert (E' : Sample.run Sample.failedSearchSession initialSystem
               = Some (Sample.lastSystem Sample.failedSearchSession))
    by (vm_compute; reflexivity).
  destruct (@errors_visible_and_not_while_loading Sample.runtime Sample.env
              Sample.searchingSession _ E) as [Hquiet _].
  destruct (@errors_visible_and_not_while_loading Sample.runtime Sample.env
              Sample.failedSearchSession _ E') as [_ Hshown].
  split.
  - apply Hquiet. vm_compute. reflexivity.
  - apply Hshown. vm_compute. reflexivity.
Defined.

Lemma saved_key_read_back_witness :
  KeySetup.apiKey
    (KeySetup.mount None
       (snd (KeySetup.saveApiKey Sample.setupForm Sample.otherStorage)))
  = lit "abc123"
  /\ KeySetup.getItem (lit "theme")
       (snd (KeySetup.saveApiKey Sample.setupForm Sample.otherStorage))
     = Some (lit "dark").
Proof.
  destruct (saved_key_read_back Sample.setupForm Sample.otherStorage)
    as [_ H].
  destruct (H eq_refl) as (_ & _ & _ & Hother & _ & _ & Hmount & _).
  split.
  - exact (proj1 (Hmount None (or_introl eq_refl))).
  - exact (Hother (lit "theme") eq_refl).
Defined.
